(** * tabularxr/relays: the Parser, Transformer and Updater stages

    A shallow embedding of [internal/parser], [internal/transformer] and
    [internal/updater] of the relay, with the data model of [pkg/types].

    Conventions.
    - Go [string] is [string]; Go [int] and [int64] are [Z], the 64-bit
      wrap-around written with [wrap64] where the code can overflow.
    - Go [[]byte] is [list Z], every element a byte in [0, 256).  A nil slice
      and an empty slice are both [[]]: the code only ever takes [len] of them.
    - Go [float64] is Rocq's primitive [float] (IEEE 754 binary64, round to
      nearest even), so the comparisons against [0.8], [0.9], [1.1] and the
      product with [0.7] are the ones the compiled program performs (without
      fused multiply-add).
    - A nilable pointer ([*PoseData], [*MeshData]) is an [option].
    - Go's [(T, error)] result is [result T]; the error values keep the
      structure of the [fmt.Errorf] calls that build them. *)

From Stdlib Require Import ZArith Lia Floats Uint63.
From stdpp Require Import gmap strings list pretty.

Local Open Scope string_scope.
Local Open Scope Z_scope.

(* Decimal float literals stand for the nearest binary64 value, as in Go. *)
#[local] Set Warnings "-inexact-float".

(** ** Machine integers *)

(** Two's-complement reduction of a mathematical integer to [int64]. *)
Definition wrap64 (z : Z) : Z := (z + 2 ^ 63) mod 2 ^ 64 - 2 ^ 63.

Definition int64_min : Z := - 2 ^ 63.
Definition int64_max : Z := 2 ^ 63 - 1.
Definition is_int64 (z : Z) : Prop := int64_min <= z <= int64_max.

(** ** float64 helpers *)

(** The float64 constants of the source, written as the binary64 values the
    Go compiler rounds the decimal literals to. *)
Definition f0_7 : float := 0x1.6666666666666p-1%float.
Definition f0_8 : float := 0x1.999999999999ap-1%float.
Definition f0_9 : float := 0x1.ccccccccccccdp-1%float.
Definition f1_1 : float := 0x1.199999999999ap+0%float.
Definition f1000 : float := 1000%float.

(** [float64(n)] for a non-negative [int] below 2^63, such as a length. *)
Definition float64_of_int (n : Z) : float := PrimFloat.of_uint63 (Uint63.of_Z n).

(** [int(f)]: truncation toward zero.  For NaN, infinities and values out of
    range Go leaves the result to the implementation; amd64 gives the least
    [int64]. *)
Definition int_of_float64 (f : float) : Z :=
  match Prim2SF f with
  | S754_zero _ => 0
  | S754_finite s m e =>
      let mag := if (0 <=? e)%Z then Z.shiftl (Z.pos m) e
                 else Z.shiftr (Z.pos m) (- e) in
      let v := if s then - mag else mag in
      if (int64_min <=? v) && (v <=? int64_max) then v else int64_min
  | _ => int64_min
  end.

(** ** Results and errors *)

Inductive error : Type :=
  | ErrMissingSessionID                 (* "missing session_id" *)
  | ErrInvalidTimestamp                 (* "invalid timestamp" *)
  | ErrMissingPacketType                (* "missing packet type" *)
  | ErrInvalidPacket (cause : error)    (* "invalid packet: %w" *)
  | ErrUnknownPacketType (ty : string)  (* "unknown packet type: %s" *)
  | ErrMissingPoseData                  (* "missing pose data" *)
  | ErrInvalidPose (cause : error)      (* "invalid pose: %w" *)
  | ErrPoseOutOfBounds                  (* "pose position out of bounds" *)
  | ErrQuaternion (magnitude : float)   (* "quaternion not normalized: magnitude=%f" *)
  | ErrMissingMeshData                  (* "missing mesh data" *)
  | ErrEmptyVertices                    (* "empty vertices data" *)
  | ErrMissingAnchorID                  (* "missing anchor_id" *)
  | ErrMissingEventSessionID            (* "missing session ID" *)
  | ErrMissingEventID                   (* "missing event ID" *)
  | ErrMarshal                          (* "failed to marshal batch: %w" *)
  | ErrCreateRequest                    (* "failed to create request: %w" *)
  | ErrSendRequest                      (* "failed to send request: %w" *)
  | ErrStatus (code : Z).               (* "STAG returned status %d" *)

Inductive result (A : Type) : Type :=
  | Ok (a : A)
  | Err (e : error).
Arguments Ok {A} a.
Arguments Err {A} e.

Definition is_err {A} (r : result A) : bool :=
  match r with Ok _ => false | Err _ => true end.

(** ** pkg/types *)

Module PoseData.
Record t : Type := mk {
    X : float;
    Y : float;
    Z : float;
    Rotation : float * float * float * float  (* quaternion [x,y,z,w] *)
}.
End PoseData.

Module MeshData.
Record t : Type := mk {
    Vertices : list Z;
    Faces : list Z;
    AnchorID : string
}.
End MeshData.

Module PacketData.
Record t : Type := mk {
    Pose : option PoseData.t;
    Mesh : option MeshData.t
}.
End PacketData.

Module StreamPacket.
Record t : Type := mk {
    SessionID : string;
    FrameNumber : Z;
    Timestamp : Z;
    Type_ : string;       (* field [Type]: "pose" | "mesh" *)
    Data : PacketData.t
}.
End StreamPacket.

Module Anchor.
Record t : Type := mk {
    ID : string;
    Pose : PoseData.t;
    Timestamp : Z
}.
End Anchor.

Module MeshDiff.
Record t : Type := mk {
    AnchorID : string;
    VerticesDelta : list Z;
    FacesDelta : list Z;
    IsDelta : bool
}.
End MeshDiff.

Module SpatialEvent.
Record t : Type := mk {
    SessionID : string;
    EventID : string;
    Timestamp : Z;
    Anchors : list Anchor.t;
    Meshes : list MeshDiff.t
}.
End SpatialEvent.

(** ** internal/parser *)

Module parser.
Section Parser.

(** [gzip.NewReader] followed by [ReadFrom] on a byte buffer: [Some out] when
    the buffer is a gzip stream that inflates to [out], [None] when either
    step reports an error. *)
Variable gunzip : list Z → option (list Z).

Definition validatePacket (packet : StreamPacket.t) : option error :=
  if String.eqb (StreamPacket.SessionID packet) "" then Some ErrMissingSessionID
  else if StreamPacket.Timestamp packet <=? 0 then Some ErrInvalidTimestamp
  else if String.eqb (StreamPacket.Type_ packet) "" then Some ErrMissingPacketType
  else None.

(** [magnitude := qx*qx + qy*qy + qz*qz + qw*qw], summed left to right. *)
Definition magnitude (pose : PoseData.t) : float :=
  let '(qx, qy, qz, qw) := PoseData.Rotation pose in
  (qx * qx + qy * qy + qz * qz + qw * qw)%float.

Definition out_of_bounds (x : float) : bool :=
  PrimFloat.ltb x (- f1000)%float || PrimFloat.ltb f1000 x.

Definition validatePose (pose : PoseData.t) : option error :=
  if out_of_bounds (PoseData.X pose) ||
     out_of_bounds (PoseData.Y pose) ||
     out_of_bounds (PoseData.Z pose)
  then Some ErrPoseOutOfBounds
  else
    let magnitude := magnitude pose in
    if PrimFloat.ltb magnitude f0_9 || PrimFloat.ltb f1_1 magnitude
    then Some (ErrQuaternion magnitude)
    else None.

Definition parsePosePacket (packet : StreamPacket.t) : result StreamPacket.t :=
  match PacketData.Pose (StreamPacket.Data packet) with
  | None => Err ErrMissingPoseData
  | Some pose =>
      match validatePose pose with
      | Some err => Err (ErrInvalidPose err)
      | None => Ok packet
      end
  end.

(** Both failure paths of [decompressGzip] hand the input back with a nil
    error. *)
Definition decompressGzip (data : list Z) : result (list Z) :=
  match gunzip data with
  | None => Ok data
  | Some decompressed => Ok decompressed
  end.

Definition decompressDraco (data : list Z) : result (list Z) :=
  if (length data =? 0)%nat then Ok data
  else decompressGzip data.

Definition parseMeshPacket (packet : StreamPacket.t) : result StreamPacket.t :=
  match PacketData.Mesh (StreamPacket.Data packet) with
  | None => Err ErrMissingMeshData
  | Some mesh =>
      if (length (MeshData.Vertices mesh) =? 0)%nat then Err ErrEmptyVertices
      else if String.eqb (MeshData.AnchorID mesh) "" then Err ErrMissingAnchorID
      else
        let decompressedVertices :=
          match decompressDraco (MeshData.Vertices mesh) with
          | Ok v => v
          | Err _ => MeshData.Vertices mesh
          end in
        let decompressedFaces :=
          if (0 <? length (MeshData.Faces mesh))%nat then
            match decompressDraco (MeshData.Faces mesh) with
            | Ok f => f
            | Err _ => MeshData.Faces mesh
            end
          else [] in
        Ok (StreamPacket.mk
              (StreamPacket.SessionID packet)
              (StreamPacket.FrameNumber packet)
              (StreamPacket.Timestamp packet)
              (StreamPacket.Type_ packet)
              (PacketData.mk
                 (PacketData.Pose (StreamPacket.Data packet))
                 (Some (MeshData.mk decompressedVertices decompressedFaces
                                    (MeshData.AnchorID mesh)))))
  end.

Definition ParsePacket (packet : StreamPacket.t) : result StreamPacket.t :=
  match validatePacket packet with
  | Some err => Err (ErrInvalidPacket err)
  | None =>
      if String.eqb (StreamPacket.Type_ packet) "pose" then parsePosePacket packet
      else if String.eqb (StreamPacket.Type_ packet) "mesh" then parseMeshPacket packet
      else Err (ErrUnknownPacketType (StreamPacket.Type_ packet))
  end.

End Parser.
End parser.

(** ** internal/transformer *)

Module transformer.

Record Transformer : Type := mkTransformer {
  anchorMap : gmap string string   (* sessionID -> anchorID *)
}.

Definition New : Transformer := mkTransformer ∅.

(** A method call runs against the transformer and the process-wide UUID
    source; [uuid_calls] counts the calls of [uuid.New] made so far. *)
Record state : Type := mkState {
  self : Transformer;
  uuid_calls : nat
}.

Definition M (A : Type) : Type := state → A * state.

Definition ret {A} (a : A) : M A := fun s => (a, s).

Definition bind {A B} (m : M A) (k : A → M B) : M B :=
  fun s => let '(a, s') := m s in k a s'.

Notation "'let!' x ':=' m 'in' k" := (bind m (fun x => k))
  (at level 10, x name, m at level 100, k at level 200, only parsing).

Definition get_anchorMap : M (gmap string string) :=
  fun s => (anchorMap (self s), s).

Definition set_anchorMap (m : gmap string string) : M unit :=
  fun s => (tt, mkState (mkTransformer m) (uuid_calls s)).

Section Transformer.

(** [uuid n] is the string form of the value the [n]-th call of [uuid.New]
    returns. *)
Variable uuid : nat → string.

Definition uuid_New : M string :=
  fun s => (uuid (uuid_calls s), mkState (self s) (S (uuid_calls s))).

Definition getOrCreateAnchorID (sessionID : string) : M string :=
  let! m := get_anchorMap in
  match m !! sessionID with
  | Some anchorID => ret anchorID
  | None =>
      let! u := uuid_New in
      let anchorID := "anchor_" +:+ u in
      let! m := get_anchorMap in
      let! _ := set_anchorMap (<[sessionID := anchorID]> m) in
      ret anchorID
  end.

Definition transformPose (event : SpatialEvent.t) (packet : StreamPacket.t)
  : M (result SpatialEvent.t) :=
  match PacketData.Pose (StreamPacket.Data packet) with
  | None => ret (Ok event)
  | Some pose =>
      let! anchorID := getOrCreateAnchorID (StreamPacket.SessionID packet) in
      let anchor := Anchor.mk anchorID pose (StreamPacket.Timestamp packet) in
      ret (Ok (SpatialEvent.mk
                 (SpatialEvent.SessionID event)
                 (SpatialEvent.EventID event)
                 (SpatialEvent.Timestamp event)
                 (SpatialEvent.Anchors event ++ [anchor])
                 (SpatialEvent.Meshes event)))
  end.

Definition transformMesh (event : SpatialEvent.t) (packet : StreamPacket.t)
  : M (result SpatialEvent.t) :=
  match PacketData.Mesh (StreamPacket.Data packet) with
  | None => ret (Ok event)
  | Some mesh =>
      let meshDiff := MeshDiff.mk (MeshData.AnchorID mesh)
                                  (MeshData.Vertices mesh)
                                  (MeshData.Faces mesh)
                                  false in
      ret (Ok (SpatialEvent.mk
                 (SpatialEvent.SessionID event)
                 (SpatialEvent.EventID event)
                 (SpatialEvent.Timestamp event)
                 (SpatialEvent.Anchors event)
                 (SpatialEvent.Meshes event ++ [meshDiff])))
  end.

Definition Transform (packet : StreamPacket.t) : M (result SpatialEvent.t) :=
  let! eventID := uuid_New in
  let event := SpatialEvent.mk (StreamPacket.SessionID packet)
                               eventID
                               (StreamPacket.Timestamp packet)
                               [] [] in
  if String.eqb (StreamPacket.Type_ packet) "pose" then transformPose event packet
  else if String.eqb (StreamPacket.Type_ packet) "mesh" then transformMesh event packet
  else ret (Ok event).

(** Feeding a sequence of packets to one transformer, as [processMessages]
    does; the results are returned in order. *)
Fixpoint Transform_all (packets : list StreamPacket.t)
  : M (list (result SpatialEvent.t)) :=
  match packets with
  | [] => ret []
  | packet :: rest =>
      let! r := Transform packet in
      let! rs := Transform_all rest in
      ret (r :: rs)
  end.

End Transformer.

(** [NormalizeTimestamp], with the reading [now] of [time.Now().UnixMilli()]
    as an argument.  All arithmetic is [int64]. *)
Definition NormalizeTimestamp (now timestamp : Z) : Z :=
  let timestamp :=
    if timestamp <? 1000000000000 then wrap64 (timestamp * 1000) else timestamp in
  if (wrap64 (now + 60000) <? timestamp) || (timestamp <? wrap64 (now - 3600000))
  then now
  else timestamp.

Definition ValidateEvent (event : SpatialEvent.t) : option error :=
  if String.eqb (SpatialEvent.SessionID event) "" then Some ErrMissingEventSessionID
  else if String.eqb (SpatialEvent.EventID event) "" then Some ErrMissingEventID
  else if SpatialEvent.Timestamp event <=? 0 then Some ErrInvalidTimestamp
  else None.

Definition ClearStaleSession (sessionID : string) : M unit :=
  let! m := get_anchorMap in
  set_anchorMap (delete sessionID m).

End transformer.

(** ** internal/updater: the mesh differ *)

Module updater.

(** The loop of [calculateVertexSimilarity]: positions where the bytes agree. *)
Fixpoint count_matches (a b : list Z) : Z :=
    match a, b with
    | x :: a', y :: b' => (if (x =? y)%Z then 1 else 0) + count_matches a' b'
    | _, _ => 0
    end.

Definition calculateVertexSimilarity (a b : list Z) : float :=
    if negb (length a =? length b)%nat then 0%float
    else if (length a =? 0)%nat then 1%float
    else PrimFloat.div (float64_of_int (count_matches a b))
                       (float64_of_int (Z.of_nat (length a))).

Definition createVertexDelta (old new : list Z) : list Z :=
    if negb (length old =? length new)%nat then new
    else zip_with Z.lxor old new.

Record Updater : Type := mkUpdater {
  batchSize : Z;
  eventQueue : list SpatialEvent.t;
  lastMeshes : gmap string (list Z)   (* anchorID -> last mesh vertices *)
}.

Definition New (batchSize : Z) : Updater := mkUpdater batchSize [] ∅.

(** [len(delta) < int(float64(len(vertices))*0.7)] *)
Definition delta_is_smaller (delta vertices : list Z) : bool :=
  Z.of_nat (length delta)
  <? int_of_float64 (float64_of_int (Z.of_nat (length vertices)) * f0_7)%float.

(** One iteration of the loop of [applyMeshDiffing]: the remembered buffers
    after the iteration and the mesh appended to [processedMeshes].  Each of
    the three places that handle a full mesh performs the same assignment
    [u.lastMeshes[mesh.AnchorID] = mesh.VerticesDelta], named [store] here. *)
Definition diffMesh (lastMeshes : gmap string (list Z)) (mesh : MeshDiff.t)
  : gmap string (list Z) * MeshDiff.t :=
  if MeshDiff.IsDelta mesh then (lastMeshes, mesh)
  else
    let store := <[MeshDiff.AnchorID mesh := MeshDiff.VerticesDelta mesh]> lastMeshes in
    match lastMeshes !! MeshDiff.AnchorID mesh with
    | None => (store, mesh)
    | Some lastVertices =>
        if (length lastVertices =? 0)%nat then (store, mesh)
        else
          let similarity :=
            calculateVertexSimilarity lastVertices (MeshDiff.VerticesDelta mesh) in
          if PrimFloat.ltb f0_8 similarity then
            let delta := createVertexDelta lastVertices (MeshDiff.VerticesDelta mesh) in
            if delta_is_smaller delta (MeshDiff.VerticesDelta mesh) then
              (store,
               MeshDiff.mk (MeshDiff.AnchorID mesh) delta
                           (MeshDiff.FacesDelta mesh) true)
            else (store, mesh)
          else (store, mesh)
    end.

Fixpoint diffMeshes (lastMeshes : gmap string (list Z)) (meshes : list MeshDiff.t)
  : gmap string (list Z) * list MeshDiff.t :=
  match meshes with
  | [] => (lastMeshes, [])
  | mesh :: rest =>
      let '(lastMeshes', processed) := diffMesh lastMeshes mesh in
      let '(lastMeshes'', processedMeshes) := diffMeshes lastMeshes' rest in
      (lastMeshes'', processed :: processedMeshes)
  end.

Definition applyMeshDiffing (u : Updater) (event : SpatialEvent.t)
  : SpatialEvent.t * Updater :=
  if (length (SpatialEvent.Meshes event) =? 0)%nat then (event, u)
  else
    let '(lastMeshes', processedMeshes) :=
      diffMeshes (lastMeshes u) (SpatialEvent.Meshes event) in
    (SpatialEvent.mk (SpatialEvent.SessionID event)
                     (SpatialEvent.EventID event)
                     (SpatialEvent.Timestamp event)
                     (SpatialEvent.Anchors event)
                     processedMeshes,
     mkUpdater (batchSize u) (eventQueue u) lastMeshes').

(** [ProcessEvent]: the updater afterwards, and whether a [flushBatch] was
    spawned because the queue reached [batchSize]. *)
Definition ProcessEvent (u : Updater) (event : SpatialEvent.t) : Updater * bool :=
  let '(processedEvent, u1) := applyMeshDiffing u event in
  let u2 := mkUpdater (batchSize u1) (eventQueue u1 ++ [processedEvent]) (lastMeshes u1) in
  (u2, batchSize u2 <=? Z.of_nat (length (eventQueue u2))).

(** How one attempt to deliver a batch ends: [json.Marshal] fails,
    [http.NewRequestWithContext] fails, [httpClient.Do] reports a transport
    error, or the sink answers with a status code. *)
Inductive delivery : Type :=
  | MarshalError
  | NewRequestError
  | DoError
  | Response (StatusCode : Z).

Definition StatusOK : Z := 200.

Section Sink.

(** [compress/gzip] writing a whole buffer: the compressed bytes, or the
    error of [Write] or [Close]. *)
Variable gzip : list Z → option (list Z).

(* [compressionEnabled] is set by [New] and never cleared, so the test
   [!u.compressionEnabled] is always false. *)
Definition compressMeshData (vertices : list Z) : option (list Z * Z) :=
  if (length vertices =? 0)%nat then Some (vertices, 0)
  else
    match gzip vertices with
    | None => None
    | Some compressedData =>
        Some (compressedData,
              Z.of_nat (length vertices) - Z.of_nat (length compressedData))
    end.

Definition compressMesh (mesh : MeshDiff.t) : MeshDiff.t :=
  if (0 <? length (MeshDiff.VerticesDelta mesh))%nat then
    match compressMeshData (MeshDiff.VerticesDelta mesh) with
    | None => mesh
    | Some (compressed, _) =>
        MeshDiff.mk (MeshDiff.AnchorID mesh) compressed
                    (MeshDiff.FacesDelta mesh) (MeshDiff.IsDelta mesh)
    end
  else mesh.

(** The events as they are marshalled into the batch payload. *)
Definition compressedEvents (events : list SpatialEvent.t) : list SpatialEvent.t :=
  map (fun event =>
         SpatialEvent.mk (SpatialEvent.SessionID event)
                         (SpatialEvent.EventID event)
                         (SpatialEvent.Timestamp event)
                         (SpatialEvent.Anchors event)
                         (map compressMesh (SpatialEvent.Meshes event)))
      events.

End Sink.

(** [sendToSTAG events], given how the delivery ends; [None] is a nil error.
    The compression loop decides what is marshalled ([compressedEvents]), not
    the error returned. *)
Definition sendToSTAG (events : list SpatialEvent.t) (d : delivery) : option error :=
  if (length events =? 0)%nat then None
  else
    match d with
    | MarshalError => Some ErrMarshal
    | NewRequestError => Some ErrCreateRequest
    | DoError => Some ErrSendRequest
    | Response StatusCode =>
        if negb (StatusCode =? StatusOK) then Some (ErrStatus StatusCode)
        else None
    end.

(** [flushBatch]: the updater afterwards, the batch handed to [sendToSTAG]
    (if the queue was not empty) and the error that is logged. *)
Definition flushBatch (u : Updater) (d : delivery)
  : Updater * option (list SpatialEvent.t) * option error :=
  if (length (eventQueue u) =? 0)%nat then (u, None, None)
  else
    let events := eventQueue u in
    let u' := mkUpdater (batchSize u) [] (lastMeshes u) in
    (u', Some events, sendToSTAG events d).

Definition ClearMeshHistory (u : Updater) (anchorID : string) : Updater :=
  mkUpdater (batchSize u) (eventQueue u) (delete anchorID (lastMeshes u)).

End updater.

(** ** pkg/client: the status test of [StagClient.postJSON] *)

Module client.

Definition postJSON (d : updater.delivery) : option error :=
  match d with
  | updater.MarshalError => Some ErrMarshal
  | updater.NewRequestError => Some ErrCreateRequest
  | updater.DoError => Some ErrSendRequest
  | updater.Response StatusCode =>
      if (StatusCode <? 200) || (300 <=? StatusCode) then Some (ErrStatus StatusCode)
      else None
  end.

Definition IngestEvents (events : list SpatialEvent.t) (d : updater.delivery)
  : option error :=
  if (length events =? 0)%nat then None else postJSON d.

End client.

(** ** The Parser's rejection rule, as the specification words it *)

Definition strictly_outside (lo hi x : float) : Prop :=
  PrimFloat.ltb x lo = true ∨ PrimFloat.ltb hi x = true.

Definition pose_rejected (pose : PoseData.t) : Prop :=
  strictly_outside (- f1000)%float f1000 (PoseData.X pose)
  ∨ strictly_outside (- f1000)%float f1000 (PoseData.Y pose)
  ∨ strictly_outside (- f1000)%float f1000 (PoseData.Z pose)
  ∨ strictly_outside f0_9 f1_1 (parser.magnitude pose).

Definition mesh_rejected (mesh : MeshData.t) : Prop :=
  MeshData.AnchorID mesh = "" ∨ MeshData.Vertices mesh = [].

Definition spec_rejects (packet : StreamPacket.t) : Prop :=
  StreamPacket.SessionID packet = ""
  ∨ StreamPacket.Timestamp packet <= 0
  ∨ (StreamPacket.Type_ packet ≠ "pose" ∧ StreamPacket.Type_ packet ≠ "mesh")
  ∨ (StreamPacket.Type_ packet = "pose"
     ∧ match PacketData.Pose (StreamPacket.Data packet) with
       | None => True
       | Some pose => pose_rejected pose
       end)
  ∨ (StreamPacket.Type_ packet = "mesh"
     ∧ match PacketData.Mesh (StreamPacket.Data packet) with
       | None => True
       | Some mesh => mesh_rejected mesh
       end).

(** ** The Transformer's anchor map along a run *)

(** A pose packet: type "pose" with a pose payload. *)
Definition is_pose (packet : StreamPacket.t) (pose : PoseData.t) : Prop :=
  StreamPacket.Type_ packet = "pose"
  ∧ PacketData.Pose (StreamPacket.Data packet) = Some pose.

(** Entries of the anchor map are never changed by [Transform]. *)
Definition anchors_kept (s s' : transformer.state) : Prop :=
  ∀ sessionID anchorID,
    transformer.anchorMap (transformer.self s) !! sessionID = Some anchorID →
    transformer.anchorMap (transformer.self s') !! sessionID = Some anchorID.

(** Every stored anchor id was built from a UUID already drawn, and no two
    sessions share one. *)
Definition anchors_fresh (uuid : nat → string) (s : transformer.state) : Prop :=
  (∀ sessionID anchorID,
     transformer.anchorMap (transformer.self s) !! sessionID = Some anchorID →
     ∃ k, (k < transformer.uuid_calls s)%nat ∧ anchorID = "anchor_" +:+ uuid k)
  ∧ (∀ sessionID1 sessionID2 anchorID,
       transformer.anchorMap (transformer.self s) !! sessionID1 = Some anchorID →
       transformer.anchorMap (transformer.self s) !! sessionID2 = Some anchorID →
       sessionID1 = sessionID2).

(** ** Timestamp normalisation, as the specification words it *)

(** Over the mathematical integers: seconds become milliseconds by an exact
    multiplication. *)
Definition NormalizeTimestamp_spec (now t : Z) : Z :=
  let t := if t <? 10 ^ 12 then t * 1000 else t in
  if (now + 60000 <? t) || (t <? now - 3600000) then now else t.

(** ** The size test of the mesh differ *)

(** The test [len(delta) < int(float64(len(new))*0.7)] of [applyMeshDiffing]
    when the delta is as long as the new buffer, [n] bytes. *)
Definition size_test (n : Z) : bool :=
  n <? int_of_float64 (float64_of_int n * f0_7)%float.

Fixpoint size_test_fails_from (k : nat) (n : Z) : bool :=
  match k with
  | O => true
  | S k' => negb (size_test n) && size_test_fails_from k' (n + 1)
  end.

(** Largest buffer length for which the size test is checked exhaustively. *)
Definition checked_length : nat := Z.to_nat 262144.

(** Applying an XOR delta to a buffer, as a consumer of a delta mesh does. *)
Definition xor_bytes (a b : list Z) : list Z := zip_with Z.lxor a b.

(** ** Bytes *)

Definition is_byte (b : Z) : Prop := 0 <= b < 256.

(** ** Runs of the Updater *)

(** The two operations that touch the pending queue, each atomic under
    [queueMutex]: [ProcessEvent] (from [processMessages]) and [flushBatch]
    (from the ticker, from [Stop], or spawned by [ProcessEvent]), the latter
    with the way its delivery ends. *)
Inductive updater_op : Type :=
  | Enqueue (event : SpatialEvent.t)
  | Flush (d : updater.delivery).

(** The updater after a sequence of operations, with the batches handed to
    [sendToSTAG], oldest first. *)
Fixpoint run_updater (u : updater.Updater) (ops : list updater_op)
  : updater.Updater * list (list SpatialEvent.t) :=
  match ops with
  | [] => (u, [])
  | Enqueue event :: rest => run_updater (fst (updater.ProcessEvent u event)) rest
  | Flush d :: rest =>
      let '(u', sent, _) := updater.flushBatch u d in
      let '(u'', batches) := run_updater u' rest in
      (u'', match sent with Some batch => batch :: batches | None => batches end)
  end.

(** The events enqueued by a sequence of operations. *)
Fixpoint enqueued (ops : list updater_op) : list SpatialEvent.t :=
  match ops with
  | [] => []
  | Enqueue event :: rest => event :: enqueued rest
  | Flush _ :: rest => enqueued rest
  end.

(** ** Sessions seen by the Transformer *)

(** The session ids of the pose packets (type "pose" with a pose payload) of a
    list of packets. *)
Fixpoint pose_sessions (packets : list StreamPacket.t) : gset string :=
  match packets with
  | [] => ∅
  | packet :: rest =>
      (if String.eqb (StreamPacket.Type_ packet) "pose"
       then match PacketData.Pose (StreamPacket.Data packet) with
            | Some _ => {[StreamPacket.SessionID packet]}
            | None => ∅
            end
       else ∅) ∪ pose_sessions rest
  end.

(** The "active_sessions" entry of [Transformer.GetStats]: [len(t.anchorMap)]. *)
Definition active_sessions (s : transformer.state) : nat :=
  size (transformer.anchorMap (transformer.self s)).

(** ** cmd/relay: the message pipeline *)

Module relay.

(** The two counter vectors [processMessages] touches, by label pair. *)
Record Metrics : Type := mkMetrics {
  PacketsProcessed : gmap (string * string) nat;  (* type, status *)
  PacketErrors : gmap (string * string) nat       (* type, error *)
}.

Definition inc (labels : string * string) (c : gmap (string * string) nat)
  : gmap (string * string) nat :=
  <[labels := S (default 0%nat (c !! labels))]> c.

Definition RecordPacket (m : Metrics) (packetType status : string) : Metrics :=
  mkMetrics (inc (packetType, status) (PacketsProcessed m)) (PacketErrors m).

Definition RecordPacketError (m : Metrics) (packetType errorType : string) : Metrics :=
  mkMetrics (PacketsProcessed m) (inc (packetType, errorType) (PacketErrors m)).

(** The components [processMessages] drives. *)
Record Pipeline : Type := mkPipeline {
  transformerInstance : transformer.state;
  updaterInstance : updater.Updater;
  relayMetrics : Metrics
}.

Section ProcessMessages.

Variable gunzip : list Z → option (list Z).
Variable uuid : nat → string.

(** One iteration of the loop of [processMessages], for the packet of one
    message. *)
Definition processMessage (p : Pipeline) (packet : StreamPacket.t) : Pipeline :=
  match parser.ParsePacket gunzip packet with
  | Err _ =>
      mkPipeline (transformerInstance p) (updaterInstance p)
                 (RecordPacketError (relayMetrics p)
                                    (StreamPacket.Type_ packet) "parse_error")
  | Ok parsedPacket =>
      let '(r, t') := transformer.Transform uuid parsedPacket (transformerInstance p) in
      match r with
      | Err _ =>
          mkPipeline t' (updaterInstance p)
                     (RecordPacketError (relayMetrics p)
                                        (StreamPacket.Type_ packet) "transform_error")
      | Ok event =>
          (* ProcessEvent returns a nil error *)
          let '(u', _) := updater.ProcessEvent (updaterInstance p) event in
          mkPipeline t' u'
                     (RecordPacket (relayMetrics p)
                                   (StreamPacket.Type_ packet) "success")
      end
  end.

Definition processMessages (p : Pipeline) (packets : list StreamPacket.t) : Pipeline :=
  foldl processMessage p packets.

End ProcessMessages.

(** The sum of all counters of a vector. *)
Definition total (c : gmap (string * string) nat) : nat :=
  map_fold (fun _ n acc => (n + acc)%nat) 0%nat c.

End relay.

(** The number of packets of a list that the Parser accepts. *)
Fixpoint accepted (gunzip : list Z → option (list Z)) (packets : list StreamPacket.t)
  : nat :=
  match packets with
  | [] => 0
  | packet :: rest =>
      ((if is_err (parser.ParsePacket gunzip packet) then 0 else 1)
       + accepted gunzip rest)%nat
  end.

(** ** internal/gate: the connection table *)

Module Connection.
Record t : Type := mk {
  ID : string;
  SessionID : string;
  LastSeen : Z;      (* time.Time, as nanoseconds on the server clock *)
  APIKey : string
}.
End Connection.

Module gate.

(** The [*types.Connection] values live in [conns], by address; the table
    [connections] maps a connection id to the address registered under it.
    The reader of a connection keeps the address and writes through it
    whether or not the connection is still registered. *)
Record Gate : Type := mkGate {
  conns : gmap nat Connection.t;
  connections : gmap string nat;
  heartbeatInterval : Z               (* time.Duration: nanoseconds *)
}.

Definition New (heartbeatInterval : Z) : Gate := mkGate ∅ ∅ heartbeatInterval.

(** [fmt.Sprintf("conn_%d", time.Now().UnixNano())] *)
Definition generateConnectionID (nowNano : Z) : string :=
  "conn_" +:+ pretty nowNano.

(** [conn := &types.Connection{ID: ..., LastSeen: ..., APIKey: ...}] at a new
    address, followed by [addConnection(conn)]. *)
Definition addConnection (g : Gate) (addr : nat) (conn : Connection.t) : Gate :=
  mkGate (<[addr := conn]> (conns g))
         (<[Connection.ID conn := addr]> (connections g))
         (heartbeatInterval g).

Definition removeConnection (g : Gate) (id : string) : Gate :=
  mkGate (conns g) (delete id (connections g)) (heartbeatInterval g).

Definition GetActiveConnections (g : Gate) : nat := size (connections g).

(** The connection a table entry points to. *)
Definition registered (g : Gate) (id : string) : option Connection.t :=
  connections g !! id ≫= fun addr => conns g !! addr.

Definition bound_to (g : Gate) (sessionID : string) (addr : nat) : Prop :=
  match conns g !! addr with
  | Some conn => Connection.SessionID conn = sessionID
  | None => False
  end.

#[global] Instance bound_to_dec g sessionID addr : Decision (bound_to g sessionID addr).
Proof. unfold bound_to. destruct (conns g !! addr); apply _. Defined.

(** The addresses [GetConnectionsBySession] returns; Go leaves the order of a
    map iteration open. *)
Definition GetConnectionsBySession (g : Gate) (sessionID : string) : list nat :=
  filter (bound_to g sessionID) (map_to_list (connections g)).*2.

(** [time.Now().Add(-g.heartbeatInterval * 3)], for an interval whose triple
    fits a [Duration]. *)
Definition staleThreshold (g : Gate) (now : Z) : Z := now - heartbeatInterval g * 3.

Definition is_stale (g : Gate) (now : Z) (addr : nat) : Prop :=
  match conns g !! addr with
  | Some conn => Connection.LastSeen conn < staleThreshold g now
  | None => False
  end.

#[global] Instance is_stale_dec g now addr : Decision (is_stale g now addr).
Proof. unfold is_stale. destruct (conns g !! addr); apply _. Defined.


(** The part of the read loop of [HandleWebSocket] that updates the
    connection after a frame was read: bind the session id once and refresh
    [LastSeen]. *)
Definition touch (conn : Connection.t) (packet : StreamPacket.t) (now : Z)
  : Connection.t :=
  Connection.mk (Connection.ID conn)
                (if negb (String.eqb (StreamPacket.SessionID packet) "")
                    && String.eqb (Connection.SessionID conn) ""
                 then StreamPacket.SessionID packet
                 else Connection.SessionID conn)
                now
                (Connection.APIKey conn).


End gate.

(** * Theorems *)

Lemma zip_lxor_cancel (old new : list Z) :
  length old = length new →
  zip_with Z.lxor old (zip_with Z.lxor old new) = new.
Proof.
  revert new. induction old as [|o old IH]; intros [|n new] Hlen;
    simpl in *; try discriminate; [reflexivity|].
  f_equal.
  - rewrite <- Z.lxor_assoc, Z.lxor_nilpotent. apply Z.lxor_0_l.
  - apply IH. congruence.
Qed.

(** C8: for buffers [old] and [new] of equal length, XORing [old] with
    [createVertexDelta old new] gives back [new], byte by byte. *)
Theorem createVertexDelta_roundtrip (old new : list Z) :
  length old = length new →
  xor_bytes old (updater.createVertexDelta old new) = new.
Proof.
  intros Hlen. unfold xor_bytes, updater.createVertexDelta.
  rewrite Hlen, Nat.eqb_refl. simpl. now apply zip_lxor_cancel.
Qed.

Lemma createVertexDelta_roundtrip_witness :
  xor_bytes [1; 2; 3] (updater.createVertexDelta [1; 2; 3] [1; 7; 255])
  = [1; 7; 255].
Proof. apply createVertexDelta_roundtrip. reflexivity. Defined.

(** ** Updater: the mesh differ *)

Section MeshDiffing.
Import updater.

Lemma createVertexDelta_length (old new : list Z) :
  length (createVertexDelta old new) = length new.
Proof.
  unfold createVertexDelta.
  destruct (length old =? length new)%nat eqn:E; simpl; [|reflexivity].
  apply Nat.eqb_eq in E. rewrite length_zip_with. lia.
Qed.

Lemma size_test_fails_from_sound (k : nat) :
  ∀ n, size_test_fails_from k n = true →
       ∀ i, n <= i < n + Z.of_nat k → size_test i = false.
Proof.
  induction k as [|k IH]; intros n Hchk i Hi; [lia|].
  simpl in Hchk. apply andb_true_iff in Hchk as [Hn Hrest].
  destruct (Z.eq_dec i n) as [->|Hne].
  - now apply negb_true_iff.
  - apply (IH (n + 1)); [assumption|lia].
Qed.

Lemma size_test_fails (n : Z) :
  0 <= n < Z.of_nat checked_length → size_test n = false.
Proof.
  intros Hn.
  apply (size_test_fails_from_sound checked_length 0); [|lia].
  vm_compute. reflexivity.
Qed.

Lemma delta_never_smaller (old new : list Z) :
  (length new < checked_length)%nat →
  delta_is_smaller (createVertexDelta old new) new = false.
Proof.
  intros Hlen. unfold delta_is_smaller. rewrite createVertexDelta_length.
  apply size_test_fails. lia.
Qed.

(** The loop body hands every full mesh of less than a mebibyte through
    unchanged: the branch that builds a delta is not reached. *)
Lemma diffMesh_keeps_full_mesh (lastMeshes : gmap string (list Z)) (mesh : MeshDiff.t) :
  (length (MeshDiff.VerticesDelta mesh) < checked_length)%nat →
  snd (diffMesh lastMeshes mesh) = mesh.
Proof.
  intros Hlen. unfold diffMesh.
  destruct (MeshDiff.IsDelta mesh); [reflexivity|].
  destruct (lastMeshes !! MeshDiff.AnchorID mesh) as [lastVertices|]; [|reflexivity].
  destruct (length lastVertices =? 0)%nat; [reflexivity|].
  destruct (PrimFloat.ltb _ _); [|reflexivity].
  now rewrite delta_never_smaller.
Qed.

Lemma diffMesh_remembers (lastMeshes : gmap string (list Z)) (mesh : MeshDiff.t) :
  MeshDiff.IsDelta mesh = false →
  fst (diffMesh lastMeshes mesh) !! MeshDiff.AnchorID mesh
  = Some (MeshDiff.VerticesDelta mesh).
Proof.
  intros Hfull. unfold diffMesh. rewrite Hfull.
  destruct (lastMeshes !! MeshDiff.AnchorID mesh) as [lastVertices|] eqn:Hlast;
    [|simpl; apply lookup_insert_eq].
  destruct (length lastVertices =? 0)%nat; [simpl; apply lookup_insert_eq|].
  destruct (PrimFloat.ltb _ _); [|simpl; apply lookup_insert_eq].
  destruct (delta_is_smaller _ _); simpl; apply lookup_insert_eq.
Qed.

Lemma diffMesh_frame (lastMeshes : gmap string (list Z)) (mesh : MeshDiff.t) (A : string) :
  MeshDiff.IsDelta mesh = true ∨ MeshDiff.AnchorID mesh ≠ A →
  fst (diffMesh lastMeshes mesh) !! A = lastMeshes !! A.
Proof.
  intros Hother. unfold diffMesh.
  destruct (MeshDiff.IsDelta mesh) eqn:Hd; [reflexivity|].
  destruct Hother as [?|Hne]; [discriminate|].
  destruct (lastMeshes !! MeshDiff.AnchorID mesh) as [lastVertices|];
    [|simpl; now apply lookup_insert_ne].
  destruct (length lastVertices =? 0)%nat; [simpl; now apply lookup_insert_ne|].
  destruct (PrimFloat.ltb _ _); [|simpl; now apply lookup_insert_ne].
  destruct (delta_is_smaller _ _); simpl; now apply lookup_insert_ne.
Qed.

Lemma diffMeshes_frame (meshes : list MeshDiff.t) (A : string) :
  ∀ lastMeshes : gmap string (list Z),
  Forall (fun m => MeshDiff.IsDelta m = true ∨ MeshDiff.AnchorID m ≠ A) meshes →
  fst (diffMeshes lastMeshes meshes) !! A = lastMeshes !! A.
Proof.
  induction meshes as [|m meshes IH]; intros lastMeshes Hall; [reflexivity|].
  inversion Hall as [|? ? Hm Hrest]; subst. simpl.
  pose proof (diffMesh_frame lastMeshes m A Hm) as Hstep.
  destruct (diffMesh lastMeshes m) as [l1 p1]. simpl in Hstep.
  specialize (IH l1 Hrest).
  destruct (diffMeshes l1 meshes) as [l2 ps]. simpl in *. congruence.
Qed.

Lemma diffMeshes_remembers (pre : list MeshDiff.t) (mesh : MeshDiff.t)
      (post : list MeshDiff.t) :
  ∀ lastMeshes : gmap string (list Z),
  MeshDiff.IsDelta mesh = false →
  Forall (fun m => MeshDiff.IsDelta m = true
                   ∨ MeshDiff.AnchorID m ≠ MeshDiff.AnchorID mesh) post →
  fst (diffMeshes lastMeshes (pre ++ mesh :: post)%list) !! MeshDiff.AnchorID mesh
  = Some (MeshDiff.VerticesDelta mesh).
Proof.
  induction pre as [|m pre IH]; intros lastMeshes Hfull Hpost; simpl.
  - pose proof (diffMesh_remembers lastMeshes mesh Hfull) as Hstep.
    destruct (diffMesh lastMeshes mesh) as [l1 p1]. simpl in Hstep.
    pose proof (diffMeshes_frame post (MeshDiff.AnchorID mesh) l1 Hpost) as Hrest.
    destruct (diffMeshes l1 post) as [l2 ps]. simpl in *. congruence.
  - destruct (diffMesh lastMeshes m) as [l1 p1].
    specialize (IH l1 Hfull Hpost).
    destruct (diffMeshes l1 (pre ++ mesh :: post)) as [l2 ps]. exact IH.
Qed.

(** C6: once [applyMeshDiffing] has processed a mesh-diff with
    [is_delta = false] for anchor id [A] (and no later full mesh of the same
    event overwrites it), the remembered-vertex map holds for [A] the incoming
    vertex buffer of that mesh-diff, whichever branch the mesh took. *)
Theorem applyMeshDiffing_remembers_incoming
    (u : Updater) (event : SpatialEvent.t)
    (pre : list MeshDiff.t) (mesh : MeshDiff.t) (post : list MeshDiff.t) :
  SpatialEvent.Meshes event = (pre ++ mesh :: post)%list →
  MeshDiff.IsDelta mesh = false →
  Forall (fun m => MeshDiff.IsDelta m = true
                   ∨ MeshDiff.AnchorID m ≠ MeshDiff.AnchorID mesh) post →
  lastMeshes (snd (applyMeshDiffing u event)) !! MeshDiff.AnchorID mesh
  = Some (MeshDiff.VerticesDelta mesh).
Proof.
  intros Hmeshes Hfull Hpost. unfold applyMeshDiffing. rewrite Hmeshes.
  destruct (length (pre ++ mesh :: post) =? 0)%nat eqn:Hlen.
  - apply Nat.eqb_eq in Hlen. rewrite length_app in Hlen. simpl in Hlen. lia.
  - pose proof (diffMeshes_remembers pre mesh post (lastMeshes u) Hfull Hpost) as H.
    destruct (diffMeshes (lastMeshes u) (pre ++ mesh :: post)) as [l ps].
    exact H.
Qed.

End MeshDiffing.

Section MeshDiffingExamples.
Import updater.

(** The two vertex buffers of the "mesh first then delta" scenario: twelve
    bytes, of which the second buffer changes one. *)
Let first_vertices : list Z := [0; 1; 2; 3; 4; 5; 6; 7; 8; 9; 10; 11].
Let second_vertices : list Z := [0; 1; 2; 3; 4; 5; 6; 7; 8; 9; 10; 99].
Let faces : list Z := [0; 1; 2].

Let first_event : SpatialEvent.t :=
  SpatialEvent.mk "s1" "e1" 1700000000000 []
    [MeshDiff.mk "a1" first_vertices faces false].
Let second_event : SpatialEvent.t :=
  SpatialEvent.mk "s1" "e2" 1700000000100 []
    [MeshDiff.mk "a1" second_vertices faces false].

Lemma applyMeshDiffing_remembers_incoming_witness :
  lastMeshes (snd (applyMeshDiffing (New 5) first_event)) !! "a1"
  = Some first_vertices.
Proof.
  apply (applyMeshDiffing_remembers_incoming (New 5) first_event []
           (MeshDiff.mk "a1" first_vertices faces false) []).
  - reflexivity.
  - reflexivity.
  - constructor.
Defined.

(** C1: on the scenario's second mesh the remembered buffer has the same
    length and a byte-wise similarity of 11/12 > 0.8, yet [applyMeshDiffing]
    emits the mesh-diff unchanged, [is_delta = false] with the full vertex
    buffer: the XOR delta is as long as the new buffer, so
    [len(delta) < int(0.7 * len(new))] fails and the delta is discarded. *)
Theorem applyMeshDiffing_similar_mesh_stays_full :
  let u1 := snd (applyMeshDiffing (New 5) first_event) in
  lastMeshes u1 !! "a1" = Some first_vertices
  ∧ length first_vertices = length second_vertices
  ∧ PrimFloat.ltb f0_8 (calculateVertexSimilarity first_vertices second_vertices) = true
  ∧ delta_is_smaller (createVertexDelta first_vertices second_vertices)
                     second_vertices = false
  ∧ SpatialEvent.Meshes (fst (applyMeshDiffing u1 second_event))
    = [MeshDiff.mk "a1" second_vertices faces false].
Proof. vm_compute. repeat split; reflexivity. Qed.

End MeshDiffingExamples.

(** ** Updater: delivery to the sink *)

Section Delivery.
Import updater.

(** Whatever the sink answers, a flush of a non-empty queue empties the queue,
    hands exactly the queued events to [sendToSTAG] once and leaves the
    remembered-vertex map alone: a failed batch is not put back. *)
Lemma flushBatch_drops_batch (u : Updater) (d : delivery) :
  eventQueue u ≠ [] →
  ∃ err, flushBatch u d = (mkUpdater (batchSize u) [] (lastMeshes u),
                           Some (eventQueue u), err)
         ∧ err = sendToSTAG (eventQueue u) d.
Proof.
  intros Hne. unfold flushBatch.
  destruct (eventQueue u) as [|e q] eqn:Hq; [contradiction|].
  simpl. eexists. split; reflexivity.
Qed.

Lemma sendToSTAG_success_iff (events : list SpatialEvent.t) (d : delivery) :
  events ≠ [] →
  sendToSTAG events d = None ↔ d = Response 200.
Proof.
  intros Hne. unfold sendToSTAG.
  destruct events as [|e es]; [contradiction|]. simpl.
  destruct d as [| | |code]; try (split; intros; discriminate).
  unfold StatusOK. destruct (code =? 200) eqn:E; simpl.
  - apply Z.eqb_eq in E. subst. split; reflexivity.
  - apply Z.eqb_neq in E. split; [discriminate|]. intros [=]. contradiction.
Qed.

Lemma postJSON_success_iff (d : delivery) :
  client.postJSON d = None ↔ ∃ code, d = Response code ∧ 200 <= code < 300.
Proof.
  destruct d as [| | |code]; simpl.
  1-3: split; [discriminate | intros (c & Hc & _); discriminate].
  split.
  - intros Hok. exists code. split; [reflexivity|].
    destruct (Z.ltb_spec code 200); [discriminate|].
    destruct (Z.leb_spec 300 code); [discriminate|]. lia.
  - intros (c & Hc & Hrange). inversion Hc; subst c.
    destruct (Z.ltb_spec code 200); [lia|].
    destruct (Z.leb_spec 300 code); [lia|]. reflexivity.
Qed.

(** C2: a sink answer of 204 No Content is a 2xx status, and
    [StagClient.postJSON] takes it as success, but [sendToSTAG] compares the
    status with [http.StatusOK] alone and reports the batch as failed;
    [flushBatch] has already emptied the queue, so the batch is dropped. *)
Theorem sendToSTAG_status_204_is_failure :
  let event := SpatialEvent.mk "s1" "e1" 1700000000000 [] [] in
  let u := mkUpdater 5 [event] ∅ in
  sendToSTAG [event] (Response 204) = Some (ErrStatus 204)
  ∧ client.IngestEvents [event] (Response 204) = None
  ∧ flushBatch u (Response 204)
    = (mkUpdater 5 [] ∅, Some [event], Some (ErrStatus 204)).
Proof. repeat split; reflexivity. Qed.

End Delivery.

(** ** Parser *)

Section ParserFacts.
Import parser.

Variable gunzip : list Z → option (list Z).

Lemma out_of_bounds_iff (x : float) :
  out_of_bounds x = true ↔ strictly_outside (- f1000)%float f1000 x.
Proof. unfold out_of_bounds, strictly_outside. apply orb_true_iff. Qed.

Lemma validatePose_err_iff (pose : PoseData.t) :
  validatePose pose ≠ None ↔ pose_rejected pose.
Proof.
  unfold validatePose, pose_rejected.
  rewrite <- !out_of_bounds_iff. unfold strictly_outside.
  destruct (out_of_bounds (PoseData.X pose));
    destruct (out_of_bounds (PoseData.Y pose));
    destruct (out_of_bounds (PoseData.Z pose)); simpl;
    try (split; [intros _; tauto | discriminate]).
  destruct (PrimFloat.ltb (magnitude pose) f0_9);
    destruct (PrimFloat.ltb f1_1 (magnitude pose)); simpl;
    try (split; [intros _; tauto | discriminate]).
  split; [congruence|].
  intros [H|[H|[H|[H|H]]]]; discriminate.
Qed.

Lemma parsePosePacket_err_iff (packet : StreamPacket.t) :
  is_err (parsePosePacket packet) = true ↔
  match PacketData.Pose (StreamPacket.Data packet) with
  | None => True
  | Some pose => pose_rejected pose
  end.
Proof.
  unfold parsePosePacket.
  destruct (PacketData.Pose (StreamPacket.Data packet)) as [pose|]; [|easy].
  rewrite <- validatePose_err_iff.
  destruct (validatePose pose); simpl; split; congruence.
Qed.

Lemma parseMeshPacket_err_iff (packet : StreamPacket.t) :
  is_err (parseMeshPacket gunzip packet) = true ↔
  match PacketData.Mesh (StreamPacket.Data packet) with
  | None => True
  | Some mesh => mesh_rejected mesh
  end.
Proof.
  unfold parseMeshPacket, mesh_rejected.
  destruct (PacketData.Mesh (StreamPacket.Data packet)) as [mesh|]; [|easy].
  destruct (MeshData.Vertices mesh) as [|v vs] eqn:Hv; simpl; [tauto|].
  destruct (String.eqb_spec (MeshData.AnchorID mesh) ""); simpl; [tauto|].
  split; [discriminate|]. intros [?|?]; [contradiction|discriminate].
Qed.

Lemma ParsePacket_err_iff (packet : StreamPacket.t) :
  is_err (ParsePacket gunzip packet) = true ↔ spec_rejects packet.
Proof.
  unfold ParsePacket, validatePacket, spec_rejects.
  destruct (String.eqb_spec (StreamPacket.SessionID packet) "") as [Hs|Hs];
    simpl; [tauto|].
  destruct (Z.leb_spec (StreamPacket.Timestamp packet) 0) as [Ht|Ht];
    simpl; [tauto|].
  destruct (String.eqb_spec (StreamPacket.Type_ packet) "") as [He|He]; simpl.
  { split; [intros _|reflexivity]. right; right; left. rewrite He.
    split; discriminate. }
  destruct (String.eqb_spec (StreamPacket.Type_ packet) "pose") as [Hp|Hp].
  { rewrite parsePosePacket_err_iff. split; [tauto|].
    intros [?|[?|[[? _]|[[_ ?]|[Hm _]]]]];
      try contradiction; try lia; try assumption.
    rewrite Hp in Hm. discriminate. }
  destruct (String.eqb_spec (StreamPacket.Type_ packet) "mesh") as [Hm|Hm].
  { rewrite parseMeshPacket_err_iff. split; [tauto|].
    intros [?|[?|[[_ ?]|[[? _]|[_ ?]]]]];
      try contradiction; try lia; assumption. }
  simpl. split; [tauto|reflexivity].
Qed.

(** An accepted packet keeps its session id and timestamp. *)
Lemma ParsePacket_keeps_session (packet parsed : StreamPacket.t) :
  ParsePacket gunzip packet = Ok parsed →
  StreamPacket.SessionID parsed = StreamPacket.SessionID packet
  ∧ StreamPacket.Timestamp parsed = StreamPacket.Timestamp packet.
Proof.
  unfold ParsePacket. destruct (validatePacket packet); [discriminate|].
  destruct (String.eqb (StreamPacket.Type_ packet) "pose").
  - unfold parsePosePacket.
    destruct (PacketData.Pose (StreamPacket.Data packet)) as [pose|]; [|discriminate].
    destruct (validatePose pose); [discriminate|].
    intros [= <-]. split; reflexivity.
  - destruct (String.eqb (StreamPacket.Type_ packet) "mesh"); [|discriminate].
    unfold parseMeshPacket.
    destruct (PacketData.Mesh (StreamPacket.Data packet)) as [mesh|]; [|discriminate].
    destruct (length (MeshData.Vertices mesh) =? 0)%nat; [discriminate|].
    destruct (String.eqb (MeshData.AnchorID mesh) ""); [discriminate|].
    intros [= <-]. split; reflexivity.
Qed.

(** C4: a packet the Parser accepts keeps its session id, frame number,
    timestamp and type; and the vertex buffer of an accepted mesh packet is the
    input buffer itself or its gzip decompression. *)
Theorem ParsePacket_preserves (packet parsed : StreamPacket.t) :
  ParsePacket gunzip packet = Ok parsed →
  StreamPacket.SessionID parsed = StreamPacket.SessionID packet
  ∧ StreamPacket.FrameNumber parsed = StreamPacket.FrameNumber packet
  ∧ StreamPacket.Timestamp parsed = StreamPacket.Timestamp packet
  ∧ StreamPacket.Type_ parsed = StreamPacket.Type_ packet
  ∧ (StreamPacket.Type_ packet = "mesh" →
     ∃ mesh mesh',
       PacketData.Mesh (StreamPacket.Data packet) = Some mesh
       ∧ PacketData.Mesh (StreamPacket.Data parsed) = Some mesh'
       ∧ (MeshData.Vertices mesh' = MeshData.Vertices mesh
          ∨ gunzip (MeshData.Vertices mesh) = Some (MeshData.Vertices mesh'))).
Proof.
  unfold ParsePacket. destruct (validatePacket packet); [discriminate|].
  destruct (String.eqb_spec (StreamPacket.Type_ packet) "pose") as [Hp|Hp].
  - unfold parsePosePacket.
    destruct (PacketData.Pose (StreamPacket.Data packet)) as [pose|]; [|discriminate].
    destruct (validatePose pose); [discriminate|].
    intros [= <-]. repeat split. rewrite Hp. discriminate.
  - destruct (String.eqb_spec (StreamPacket.Type_ packet) "mesh") as [Hm|Hm];
      [|discriminate].
    unfold parseMeshPacket.
    destruct (PacketData.Mesh (StreamPacket.Data packet)) as [mesh|]; [|discriminate].
    destruct (length (MeshData.Vertices mesh) =? 0)%nat eqn:Hlen; [discriminate|].
    destruct (String.eqb (MeshData.AnchorID mesh) ""); [discriminate|].
    intros [= <-]. simpl. repeat split.
    intros _. eexists _, _. split; [reflexivity|]. split; [reflexivity|]. simpl.
    unfold decompressDraco, decompressGzip. rewrite Hlen.
    destruct (gunzip (MeshData.Vertices mesh)); [right|left]; reflexivity.
Qed.

End ParserFacts.

Section ParserExamples.
Import parser.

(** A stand-in for gzip in the examples: a buffer that starts with the gzip
    magic bytes inflates to what follows them. *)
Let toy_gunzip (data : list Z) : option (list Z) :=
  match data with
  | 31 :: 139 :: payload => Some payload
  | _ => None
  end.

Let pose_packet (x y z : float) (rotation : float * float * float * float)
  : StreamPacket.t :=
  StreamPacket.mk "s1" 1 1700000000000 "pose"
    (PacketData.mk (Some (PoseData.mk x y z rotation)) None).

Let mesh_packet (vertices faces : list Z) : StreamPacket.t :=
  StreamPacket.mk "s1" 7 1700000000000 "mesh"
    (PacketData.mk None (Some (MeshData.mk vertices faces "a1"))).

Lemma ParsePacket_preserves_witness :
  let packet := mesh_packet [31; 139; 1; 2; 3] [] in
  let parsed := mesh_packet [1; 2; 3] [] in
  StreamPacket.SessionID parsed = StreamPacket.SessionID packet
  ∧ StreamPacket.FrameNumber parsed = StreamPacket.FrameNumber packet
  ∧ StreamPacket.Timestamp parsed = StreamPacket.Timestamp packet
  ∧ StreamPacket.Type_ parsed = StreamPacket.Type_ packet
  ∧ (StreamPacket.Type_ packet = "mesh" →
     ∃ mesh mesh',
       PacketData.Mesh (StreamPacket.Data packet) = Some mesh
       ∧ PacketData.Mesh (StreamPacket.Data parsed) = Some mesh'
       ∧ (MeshData.Vertices mesh' = MeshData.Vertices mesh
          ∨ toy_gunzip (MeshData.Vertices mesh) = Some (MeshData.Vertices mesh'))).
Proof.
  apply (ParsePacket_preserves toy_gunzip
           (mesh_packet [31; 139; 1; 2; 3] []) (mesh_packet [1; 2; 3] [])).
  reflexivity.
Defined.

(** C5: [ParsePacket] returns an error exactly when the packet has an empty
    session id, a timestamp <= 0, a type other than "pose" and "mesh", a pose
    type with no pose payload, with a position component strictly outside
    [-1000, 1000] or with a quaternion magnitude squared strictly outside
    [0.9, 1.1], or a mesh type with no mesh payload, an empty anchor id or an
    empty vertex buffer.  Positions of exactly -1000 and 1000 and magnitudes
    squared of exactly 0.9 and 1.1 are accepted, and so is an empty faces
    buffer. *)
Theorem ParsePacket_error_iff :
  (∀ gunzip packet,
     is_err (ParsePacket gunzip packet) = true ↔ spec_rejects packet)
  ∧ is_err (ParsePacket toy_gunzip
              (pose_packet 1000 (-1000) 1000 (0, 0, 0, 1)%float)) = false
  ∧ (parser.magnitude (PoseData.mk 0 0 0 (0.3, 0.9, 0, 0)%float) = f0_9
     ∧ is_err (ParsePacket toy_gunzip
                 (pose_packet 0 0 0 (0.3, 0.9, 0, 0)%float)) = false)
  ∧ (parser.magnitude (PoseData.mk 0 0 0 (0.3, 0.9, 0.4, 0.2)%float) = f1_1
     ∧ is_err (ParsePacket toy_gunzip
                 (pose_packet 0 0 0 (0.3, 0.9, 0.4, 0.2)%float)) = false)
  ∧ is_err (ParsePacket toy_gunzip (mesh_packet [1; 2; 3] [])) = false.
Proof.
  split; [exact ParsePacket_err_iff|].
  vm_compute. repeat split; reflexivity.
Qed.

(** Every comparison with a NaN is false, so a NaN position or magnitude is in
    neither sense strictly outside its interval and such a pose is accepted.
    No JSON frame decodes to a NaN. *)
Remark ParsePacket_accepts_nan :
  is_err (ParsePacket toy_gunzip (pose_packet nan 0 0 (0, 0, 0, 1)%float)) = false
  ∧ is_err (ParsePacket toy_gunzip (pose_packet 0 0 0 (nan, 0, 0, 1)%float)) = false.
Proof. vm_compute. split; reflexivity. Qed.

End ParserExamples.

(** ** Transformer *)

Section TransformerFacts.
Import transformer.

Variable uuid : nat → string.

Lemma getOrCreateAnchorID_hit (sessionID anchorID : string) (s : state) :
  anchorMap (self s) !! sessionID = Some anchorID →
  getOrCreateAnchorID uuid sessionID s = (anchorID, s).
Proof.
  intros Hhit. unfold getOrCreateAnchorID, bind, get_anchorMap. simpl.
  now rewrite Hhit.
Qed.

Lemma getOrCreateAnchorID_miss (sessionID : string) (s : state) :
  anchorMap (self s) !! sessionID = None →
  getOrCreateAnchorID uuid sessionID s
  = ("anchor_" +:+ uuid (uuid_calls s),
     mkState (mkTransformer
                (<[sessionID := "anchor_" +:+ uuid (uuid_calls s)]>
                   (anchorMap (self s))))
             (S (uuid_calls s))).
Proof.
  intros Hmiss. unfold getOrCreateAnchorID, bind, get_anchorMap. simpl.
  now rewrite Hmiss.
Qed.

Lemma getOrCreateAnchorID_stored (sessionID : string) (s : state) :
  ∀ anchorID s', getOrCreateAnchorID uuid sessionID s = (anchorID, s') →
  anchorMap (self s') !! sessionID = Some anchorID
  ∧ anchors_kept s s'
  ∧ (uuid_calls s <= uuid_calls s')%nat.
Proof.
  intros anchorID s' Hrun.
  destruct (anchorMap (self s) !! sessionID) as [a|] eqn:Hlook.
  - rewrite (getOrCreateAnchorID_hit _ _ _ Hlook) in Hrun.
    injection Hrun as <- <-. repeat split; [assumption| |lia].
    intros sid a' H. exact H.
  - rewrite (getOrCreateAnchorID_miss _ _ Hlook) in Hrun.
    injection Hrun as <- <-. simpl. repeat split; [apply lookup_insert_eq| |lia].
    intros sid a' H. simpl.
    rewrite lookup_insert_ne; [assumption|]. congruence.
Qed.

Lemma getOrCreateAnchorID_fresh (sessionID : string) (s : state) :
  Inj (=) (=) uuid →
  ∀ anchorID s', getOrCreateAnchorID uuid sessionID s = (anchorID, s') →
  anchors_fresh uuid s → anchors_fresh uuid s'.
Proof.
  intros Hinj anchorID s' Hrun [Hdrawn Hdistinct].
  destruct (anchorMap (self s) !! sessionID) as [a|] eqn:Hlook.
  - rewrite (getOrCreateAnchorID_hit _ _ _ Hlook) in Hrun.
    injection Hrun as <- <-. now split.
  - rewrite (getOrCreateAnchorID_miss _ _ Hlook) in Hrun.
    injection Hrun as <- <-. split; simpl.
    + intros sid a'. rewrite lookup_insert. case_decide as Hsid.
      * intros [= <-]. exists (uuid_calls s). split; [lia|reflexivity].
      * intros H. destruct (Hdrawn _ _ H) as (k & Hk & ->).
        exists k. split; [lia|reflexivity].
    + assert (Hnew : ∀ sid, anchorMap (self s) !! sid
                            ≠ Some ("anchor_" +:+ uuid (uuid_calls s))).
      { intros sid H. destruct (Hdrawn _ _ H) as (k & Hk & Heq).
        apply (inj (String.app "anchor_")) in Heq. apply Hinj in Heq. lia. }
      intros sid1 sid2 a'. rewrite !lookup_insert.
      destruct (decide (sessionID = sid1)) as [<-|Hn1];
        destruct (decide (sessionID = sid2)) as [Heq2|Hn2].
      * intros _ _. exact Heq2.
      * intros [= <-] Hl2. now apply Hnew in Hl2.
      * intros Hl1 [= <-]. now apply Hnew in Hl1.
      * apply Hdistinct.
Qed.

Lemma anchors_fresh_draw (s : state) :
  anchors_fresh uuid s →
  anchors_fresh uuid (mkState (self s) (S (uuid_calls s))).
Proof.
  intros [Hdrawn Hdistinct]. split; simpl; [|exact Hdistinct].
  intros sid a H. destruct (Hdrawn _ _ H) as (k & Hk & ->).
  exists k. split; [lia|reflexivity].
Qed.

(** What [Transform] returns, case by case. *)
Lemma Transform_cases (packet : StreamPacket.t) (s : state) :
  let s1 := mkState (self s) (S (uuid_calls s)) in
  let event := SpatialEvent.mk (StreamPacket.SessionID packet)
                               (uuid (uuid_calls s))
                               (StreamPacket.Timestamp packet) [] [] in
  (∃ pose anchorID s',
     is_pose packet pose
     ∧ getOrCreateAnchorID uuid (StreamPacket.SessionID packet) s1 = (anchorID, s')
     ∧ Transform uuid packet s
       = (Ok (SpatialEvent.mk (StreamPacket.SessionID packet)
                              (uuid (uuid_calls s))
                              (StreamPacket.Timestamp packet)
                              [Anchor.mk anchorID pose (StreamPacket.Timestamp packet)]
                              []), s'))
  ∨ (∃ mesh,
       StreamPacket.Type_ packet = "mesh"
       ∧ PacketData.Mesh (StreamPacket.Data packet) = Some mesh
       ∧ Transform uuid packet s
         = (Ok (SpatialEvent.mk (StreamPacket.SessionID packet)
                                (uuid (uuid_calls s))
                                (StreamPacket.Timestamp packet)
                                []
                                [MeshDiff.mk (MeshData.AnchorID mesh)
                                             (MeshData.Vertices mesh)
                                             (MeshData.Faces mesh) false]), s1))
  ∨ ((∀ pose, ¬ is_pose packet pose)
     ∧ ¬ (StreamPacket.Type_ packet = "mesh"
          ∧ PacketData.Mesh (StreamPacket.Data packet) ≠ None)
     ∧ Transform uuid packet s = (Ok event, s1)).
Proof.
  intros s1 event. unfold Transform, bind, uuid_New. simpl.
  destruct (String.eqb_spec (StreamPacket.Type_ packet) "pose") as [Hp|Hp].
  - unfold transformPose, is_pose.
    destruct (PacketData.Pose (StreamPacket.Data packet)) as [pose|] eqn:Hpose.
    + left. unfold bind. fold s1.
      destruct (getOrCreateAnchorID uuid (StreamPacket.SessionID packet) s1)
        as [anchorID s'] eqn:Hget.
      exists pose, anchorID, s'. repeat split; assumption || reflexivity.
    + right; right. repeat split.
      * intros pose [_ H]. discriminate.
      * intros [Hm _]. rewrite Hp in Hm. discriminate.
  - destruct (String.eqb_spec (StreamPacket.Type_ packet) "mesh") as [Hm|Hm].
    + unfold transformMesh.
      destruct (PacketData.Mesh (StreamPacket.Data packet)) as [mesh|] eqn:Hmesh.
      * right; left. exists mesh. repeat split; assumption || reflexivity.
      * right; right. repeat split.
        -- intros pose [H _]. contradiction.
        -- intros [_ H]. now apply H.
    + right; right. repeat split.
      * intros pose [H _]. contradiction.
      * intros [H _]. contradiction.
Qed.

End TransformerFacts.

Section TransformerRuns.
Import transformer.

Variable uuid : nat → string.

Lemma Transform_kept_fresh (packet : StreamPacket.t) (s : state) :
  ∀ r s', Transform uuid packet s = (r, s') →
  anchors_kept s s'
  ∧ (Inj (=) (=) uuid → anchors_fresh uuid s → anchors_fresh uuid s').
Proof.
  intros r s' Hrun.
  destruct (Transform_cases uuid packet s)
    as [(pose & anchorID & s2 & _ & Hget & Heq)
       |[(mesh & _ & _ & Heq)|(_ & _ & Heq)]];
    rewrite Heq in Hrun; injection Hrun as <- <-.
  - destruct (getOrCreateAnchorID_stored uuid _ _ _ _ Hget) as (_ & Hkept & _).
    split; [exact Hkept|].
    intros Hinj Hfresh.
    apply (getOrCreateAnchorID_fresh uuid _ _ Hinj _ _ Hget).
    now apply anchors_fresh_draw.
  - split; [intros sid a H; exact H|]. intros _. apply anchors_fresh_draw.
  - split; [intros sid a H; exact H|]. intros _. apply anchors_fresh_draw.
Qed.

Lemma Transform_pose_anchor (packet : StreamPacket.t) (pose : PoseData.t) (s : state) :
  is_pose packet pose →
  ∀ r s', Transform uuid packet s = (r, s') →
  ∃ anchorID event,
    r = Ok event
    ∧ SpatialEvent.SessionID event = StreamPacket.SessionID packet
    ∧ SpatialEvent.Anchors event
      = [Anchor.mk anchorID pose (StreamPacket.Timestamp packet)]
    ∧ anchorMap (self s') !! StreamPacket.SessionID packet = Some anchorID.
Proof.
  intros [Hty Hpose] r s' Hrun.
  destruct (Transform_cases uuid packet s)
    as [(pose' & anchorID & s2 & [_ Hpose'] & Hget & Heq)
       |[(mesh & Hm & _ & _)|(Hno & _ & _)]].
  - rewrite Heq in Hrun. injection Hrun as <- <-.
    destruct (getOrCreateAnchorID_stored uuid _ _ _ _ Hget) as (Hst & _ & _).
    exists anchorID. eexists. split; [reflexivity|]. simpl.
    repeat split; [|exact Hst]. congruence.
  - rewrite Hty in Hm. discriminate.
  - exfalso. apply (Hno pose). now split.
Qed.

(** Along a run, the event of every pose packet carries the anchor id that
    the final map holds for the packet's session. *)
Lemma Transform_all_anchors (packets : list StreamPacket.t) :
  ∀ (s : state) results s',
  Transform_all uuid packets s = (results, s') →
  anchors_kept s s'
  ∧ (Inj (=) (=) uuid → anchors_fresh uuid s → anchors_fresh uuid s')
  ∧ ∀ (i : nat) packet pose,
      packets !! i = Some packet → is_pose packet pose →
      ∃ anchorID event,
        results !! i = Some (Ok event)
        ∧ SpatialEvent.SessionID event = StreamPacket.SessionID packet
        ∧ SpatialEvent.Anchors event
          = [Anchor.mk anchorID pose (StreamPacket.Timestamp packet)]
        ∧ anchorMap (self s') !! StreamPacket.SessionID packet = Some anchorID.
Proof.
  induction packets as [|p packets IH]; intros s results s' Hrun.
  - injection Hrun as <- <-. split; [|split].
    + intros sid a H; exact H.
    + intros _ Hfresh; exact Hfresh.
    + intros i packet pose Hi. rewrite lookup_nil in Hi. discriminate.
  - simpl in Hrun. unfold bind in Hrun.
    destruct (Transform uuid p s) as [r s1] eqn:Hstep.
    destruct (Transform_all uuid packets s1) as [rs s2] eqn:Hrest.
    injection Hrun as <- <-.
    destruct (Transform_kept_fresh p s r s1 Hstep) as [Hkept1 Hfresh1].
    destruct (IH s1 rs s2 Hrest) as (Hkept2 & Hfresh2 & Hevents).
    split; [|split].
    + intros sid a H. apply Hkept2, Hkept1, H.
    + intros Hinj Hfresh. apply Hfresh2; [assumption|]. now apply Hfresh1.
    + intros [|i] packet pose Hi Hpose; simpl in Hi.
      * injection Hi as ->.
        destruct (Transform_pose_anchor packet pose s Hpose r s1 Hstep)
          as (anchorID & event & -> & Hsid & Hanchors & Hlook).
        exists anchorID, event. repeat split; try assumption.
        apply Hkept2, Hlook.
      * apply (Hevents i packet pose Hi Hpose).
Qed.

(** C3: within the lifetime of one Transformer (a run of [Transform] calls from
    [New]), and with a UUID source that never repeats, the events of two pose
    packets carry the same anchor id exactly when the packets bear the same
    session id. *)
Theorem anchor_id_function_of_session
    (Hinj : Inj (=) (=) uuid) (uuid_calls0 : nat)
    (packets : list StreamPacket.t)
    (results : list (result SpatialEvent.t)) (s' : state)
    (i j : nat) (packet1 packet2 : StreamPacket.t) (pose1 pose2 : PoseData.t) :
  Transform_all uuid packets (mkState New uuid_calls0) = (results, s') →
  packets !! i = Some packet1 → is_pose packet1 pose1 →
  packets !! j = Some packet2 → is_pose packet2 pose2 →
  ∃ anchorID1 anchorID2 event1 event2,
    results !! i = Some (Ok event1)
    ∧ results !! j = Some (Ok event2)
    ∧ SpatialEvent.Anchors event1
      = [Anchor.mk anchorID1 pose1 (StreamPacket.Timestamp packet1)]
    ∧ SpatialEvent.Anchors event2
      = [Anchor.mk anchorID2 pose2 (StreamPacket.Timestamp packet2)]
    ∧ (anchorID1 = anchorID2
       ↔ StreamPacket.SessionID packet1 = StreamPacket.SessionID packet2).
Proof.
  intros Hrun Hi Hpose1 Hj Hpose2.
  destruct (Transform_all_anchors packets _ _ _ Hrun) as (_ & Hfresh & Hevents).
  destruct (Hevents i packet1 pose1 Hi Hpose1)
    as (anchorID1 & event1 & Hr1 & _ & Ha1 & Hl1).
  destruct (Hevents j packet2 pose2 Hj Hpose2)
    as (anchorID2 & event2 & Hr2 & _ & Ha2 & Hl2).
  exists anchorID1, anchorID2, event1, event2. repeat split; try assumption.
  - intros <-.
    assert (Hinit : anchors_fresh uuid (mkState New uuid_calls0)).
    { split; simpl; intros *; rewrite lookup_empty; discriminate. }
    destruct (Hfresh Hinj Hinit) as [_ Hdistinct].
    exact (Hdistinct _ _ _ Hl1 Hl2).
  - intros Hsame. rewrite Hsame in Hl1. congruence.
Qed.

(** C10: [Transform] always returns an event and a nil error; for a "pose"
    packet without pose data and a "mesh" packet without mesh data the event
    has no anchors and no meshes and the session-to-anchor map is the one it
    was before the call. *)
Theorem Transform_never_fails (packet : StreamPacket.t) (s : state) :
  ∃ event s',
    Transform uuid packet s = (Ok event, s')
    ∧ ((StreamPacket.Type_ packet = "pose"
        ∧ PacketData.Pose (StreamPacket.Data packet) = None)
       ∨ (StreamPacket.Type_ packet = "mesh"
          ∧ PacketData.Mesh (StreamPacket.Data packet) = None) →
       SpatialEvent.Anchors event = []
       ∧ SpatialEvent.Meshes event = []
       ∧ self s' = self s).
Proof.
  destruct (Transform_cases uuid packet s)
    as [(pose & anchorID & s2 & [Hty Hpose] & _ & Heq)
       |[(mesh & Hty & Hmesh & Heq)|(_ & _ & Heq)]];
    rewrite Heq; eexists _, _; (split; [reflexivity|]); simpl.
  - intros [[_ Hnil]|[Hm _]]; [congruence|]. rewrite Hty in Hm. discriminate.
  - intros [[Hp _]|[_ Hnil]]; [|congruence]. rewrite Hty in Hp. discriminate.
  - intros _. repeat split.
Qed.

End TransformerRuns.

Section TransformerPipeline.
Import transformer.

Variable gunzip : list Z → option (list Z).
Variable uuid : nat → string.

Lemma ParsePacket_accepts (packet parsed : StreamPacket.t) :
  parser.ParsePacket gunzip packet = Ok parsed →
  StreamPacket.SessionID packet ≠ "" ∧ 0 < StreamPacket.Timestamp packet.
Proof.
  unfold parser.ParsePacket, parser.validatePacket.
  destruct (String.eqb_spec (StreamPacket.SessionID packet) ""); [discriminate|].
  destruct (Z.leb_spec (StreamPacket.Timestamp packet) 0); [discriminate|].
  intros _. split; assumption.
Qed.

Lemma Transform_event_fields (packet : StreamPacket.t) (s : state) :
  ∀ r s', Transform uuid packet s = (r, s') →
  ∃ event,
    r = Ok event
    ∧ SpatialEvent.SessionID event = StreamPacket.SessionID packet
    ∧ SpatialEvent.EventID event = uuid (uuid_calls s)
    ∧ SpatialEvent.Timestamp event = StreamPacket.Timestamp packet.
Proof.
  intros r s' Hrun.
  destruct (Transform_cases uuid packet s)
    as [(pose & anchorID & s2 & _ & _ & Heq)
       |[(mesh & _ & _ & Heq)|(_ & _ & Heq)]];
    rewrite Heq in Hrun; injection Hrun as <- <-;
    eexists; repeat split.
Qed.

(** C9: the event [Transform] builds from a packet that [ParsePacket]
    accepted (the packet itself or the parsed packet [ParsePacket] returns,
    which [processMessages] passes on) satisfies [ValidateEvent]: its session
    id is the packet's and is not empty, its event id is the next UUID drawn
    (not empty, as UUID strings are), and its timestamp is the packet's and is
    positive. *)
Theorem Transform_of_parsed_validates
    (Huuid : ∀ n, uuid n ≠ "")
    (packet parsed input : StreamPacket.t) (s : state)
    (r : result SpatialEvent.t) (s' : state) :
  parser.ParsePacket gunzip packet = Ok parsed →
  input = packet ∨ input = parsed →
  Transform uuid input s = (r, s') →
  ∃ event,
    r = Ok event
    ∧ ValidateEvent event = None
    ∧ SpatialEvent.SessionID event = StreamPacket.SessionID packet
    ∧ SpatialEvent.SessionID event ≠ ""
    ∧ SpatialEvent.EventID event = uuid (uuid_calls s)
    ∧ SpatialEvent.EventID event ≠ ""
    ∧ SpatialEvent.Timestamp event = StreamPacket.Timestamp packet
    ∧ 0 < SpatialEvent.Timestamp event.
Proof.
  intros Hparse Hinput Hrun.
  destruct (ParsePacket_keeps_session gunzip packet parsed Hparse)
    as (Hsid & Hts).
  destruct (ParsePacket_accepts packet parsed Hparse) as [Hne Hpos].
  destruct (Transform_event_fields input s r s' Hrun)
    as (event & -> & Hesid & Heid & Hets).
  assert (Hin : StreamPacket.SessionID input = StreamPacket.SessionID packet
                ∧ StreamPacket.Timestamp input = StreamPacket.Timestamp packet)
    by (destruct Hinput as [->| ->]; [split; reflexivity | split; assumption]).
  destruct Hin as [Hisid Hits].
  exists event.
  assert (Hs : SpatialEvent.SessionID event ≠ "") by congruence.
  assert (He : SpatialEvent.EventID event ≠ "") by (rewrite Heid; apply Huuid).
  assert (Ht : 0 < SpatialEvent.Timestamp event) by lia.
  repeat split; try assumption; try congruence.
  unfold ValidateEvent.
  destruct (String.eqb_spec (SpatialEvent.SessionID event) ""); [contradiction|].
  destruct (String.eqb_spec (SpatialEvent.EventID event) ""); [contradiction|].
  destruct (Z.leb_spec (SpatialEvent.Timestamp event) 0); [lia|reflexivity].
Qed.

End TransformerPipeline.

Section TransformerExamples.
Import transformer.

(** A UUID source for the examples: the call number in decimal after a fixed
    prefix. *)
Let uuid_ex (n : nat) : string := "uuid-" +:+ pretty n.

Let uuid_ex_inj : Inj (=) (=) uuid_ex.
Proof.
  intros m n H. unfold uuid_ex in H.
  apply (inj (String.app "uuid-")) in H. now apply (inj pretty) in H.
Defined.

Let pose_ex (sessionID : string) (x : float) : StreamPacket.t :=
  StreamPacket.mk sessionID 1 1700000000000 "pose"
    (PacketData.mk (Some (PoseData.mk x 2.5 3.5 (0, 0, 0, 1)%float)) None).

Let run_ex : list (result SpatialEvent.t) * state :=
  Transform_all uuid_ex [pose_ex "s1" 1.5; pose_ex "s2" 1.5; pose_ex "s1" 4.5]
                (mkState New 0).

Lemma anchor_id_function_of_session_witness :
  ∃ anchorID1 anchorID2 event1 event2,
    fst run_ex !! 0%nat = Some (Ok event1)
    ∧ fst run_ex !! 2%nat = Some (Ok event2)
    ∧ SpatialEvent.Anchors event1
      = [Anchor.mk anchorID1 (PoseData.mk 1.5 2.5 3.5 (0, 0, 0, 1)%float) 1700000000000]
    ∧ SpatialEvent.Anchors event2
      = [Anchor.mk anchorID2 (PoseData.mk 4.5 2.5 3.5 (0, 0, 0, 1)%float) 1700000000000]
    ∧ (anchorID1 = anchorID2 ↔ "s1" = "s1").
Proof.
  apply (anchor_id_function_of_session uuid_ex uuid_ex_inj 0
           [pose_ex "s1" 1.5; pose_ex "s2" 1.5; pose_ex "s1" 4.5]
           (fst run_ex) (snd run_ex) 0 2
           (pose_ex "s1" 1.5) (pose_ex "s1" 4.5)).
  - apply surjective_pairing.
  - reflexivity.
  - split; reflexivity.
  - reflexivity.
  - split; reflexivity.
Defined.

(** Clearing a session between two of its pose packets gives the second
    packet a new anchor id: the stability of C3 is that of runs of
    [Transform] alone. *)
Remark ClearStaleSession_reallocates :
  let '(r1, s1) := Transform uuid_ex (pose_ex "s1" 1.5) (mkState New 0) in
  let '(_, s2) := ClearStaleSession "s1" s1 in
  let '(r2, _) := Transform uuid_ex (pose_ex "s1" 4.5) s2 in
  (Anchor.ID <$> (match r1 with Ok e => SpatialEvent.Anchors e | Err _ => [] end))
    = ["anchor_uuid-1"]
  ∧ (Anchor.ID <$> (match r2 with Ok e => SpatialEvent.Anchors e | Err _ => [] end))
    = ["anchor_uuid-3"].
Proof. vm_compute. split; reflexivity. Qed.

Lemma Transform_of_parsed_validates_witness :
  let packet := pose_ex "s1" 1.5 in
  ∃ event,
    fst (Transform uuid_ex packet (mkState New 0)) = Ok event
    ∧ ValidateEvent event = None
    ∧ SpatialEvent.SessionID event = StreamPacket.SessionID packet
    ∧ SpatialEvent.SessionID event ≠ ""
    ∧ SpatialEvent.EventID event = uuid_ex 0
    ∧ SpatialEvent.EventID event ≠ ""
    ∧ SpatialEvent.Timestamp event = StreamPacket.Timestamp packet
    ∧ 0 < SpatialEvent.Timestamp event.
Proof.
  apply (Transform_of_parsed_validates (fun _ => None) uuid_ex
           (fun n => ltac:(discriminate))
           (pose_ex "s1" 1.5) (pose_ex "s1" 1.5) (pose_ex "s1" 1.5)
           (mkState New 0)
           (fst (Transform uuid_ex (pose_ex "s1" 1.5) (mkState New 0)))
           (snd (Transform uuid_ex (pose_ex "s1" 1.5) (mkState New 0)))).
  - vm_compute. reflexivity.
  - right. reflexivity.
  - apply surjective_pairing.
Defined.

End TransformerExamples.

(** ** Timestamp normalisation *)

Lemma wrap64_id (z : Z) : is_int64 z → wrap64 z = z.
Proof.
  unfold is_int64, int64_min, int64_max, wrap64. intros Hz.
  rewrite Z.mod_small; lia.
Qed.

(** Wherever the product [t * 1000] fits in an [int64], that is for every
    [t >= -9223372036854775], [NormalizeTimestamp] computes what the
    specification says. *)
Lemma NormalizeTimestamp_agrees (now t : Z) :
  is_int64 t →
  int64_min + 3600000 <= now <= int64_max - 60000 →
  -9223372036854775 <= t →
  transformer.NormalizeTimestamp now t = NormalizeTimestamp_spec now t.
Proof.
  unfold is_int64, int64_min, int64_max. intros Ht Hnow Hlow.
  unfold transformer.NormalizeTimestamp, NormalizeTimestamp_spec.
  rewrite (wrap64_id (now + 60000)), (wrap64_id (now - 3600000))
    by (unfold is_int64, int64_min, int64_max; lia).
  change (10 ^ 12) with 1000000000000.
  destruct (Z.ltb_spec t 1000000000000); [|reflexivity].
  rewrite (wrap64_id (t * 1000)) by (unfold is_int64, int64_min, int64_max; lia).
  reflexivity.
Qed.

(** C7: for the timestamp -2305843007513693952 (less than 10^12, so taken as
    seconds) and the clock 1700000000008, the product with 1000 lies far more
    than an hour before the clock and the specification returns the clock; in
    [int64] the product wraps to 1700000000000, which lies in the accepted
    window, and [NormalizeTimestamp] returns it. *)
Theorem NormalizeTimestamp_overflow :
  let now := 1700000000008 in
  let t := -2305843007513693952 in
  is_int64 t
  ∧ t < 10 ^ 12
  ∧ t * 1000 < now - 3600000
  ∧ NormalizeTimestamp_spec now t = now
  ∧ wrap64 (t * 1000) = 1700000000000
  ∧ transformer.NormalizeTimestamp now t = 1700000000000.
Proof.
  unfold is_int64, int64_min, int64_max.
  repeat split; try reflexivity; vm_compute; congruence.
Qed.

(** * Further properties of the Updater *)

Section MeshDifferShape.
Import updater.

(** What one iteration emits depends on the remembered buffers only through
    the entry of the mesh's own anchor. *)
Lemma diffMesh_output_local (l1 l2 : gmap string (list Z)) (mesh : MeshDiff.t) :
  l1 !! MeshDiff.AnchorID mesh = l2 !! MeshDiff.AnchorID mesh →
  snd (diffMesh l1 mesh) = snd (diffMesh l2 mesh).
Proof.
  intros Heq. unfold diffMesh. rewrite Heq.
  destruct (MeshDiff.IsDelta mesh); [reflexivity|].
  destruct (l2 !! MeshDiff.AnchorID mesh) as [lastVertices|]; [|reflexivity].
  destruct (length lastVertices =? 0)%nat; [reflexivity|].
  destruct (PrimFloat.ltb _ _); [|reflexivity].
  destruct (delta_is_smaller _ _); reflexivity.
Qed.

(** The mesh emitted by one iteration: the input itself, or a delta against
    the remembered buffer of equal length. *)
Lemma diffMesh_output (lastMeshes : gmap string (list Z)) (mesh : MeshDiff.t) :
  snd (diffMesh lastMeshes mesh) = mesh
  ∨ (MeshDiff.IsDelta mesh = false
     ∧ ∃ lastVertices,
         lastMeshes !! MeshDiff.AnchorID mesh = Some lastVertices
         ∧ length lastVertices = length (MeshDiff.VerticesDelta mesh)
         ∧ snd (diffMesh lastMeshes mesh)
           = MeshDiff.mk (MeshDiff.AnchorID mesh)
                         (zip_with Z.lxor lastVertices (MeshDiff.VerticesDelta mesh))
                         (MeshDiff.FacesDelta mesh) true).
Proof.
  unfold diffMesh.
  destruct (MeshDiff.IsDelta mesh) eqn:Hd; [now left|].
  destruct (lastMeshes !! MeshDiff.AnchorID mesh) as [lastVertices|]; [|now left].
  destruct (length lastVertices =? 0)%nat; [now left|].
  destruct (PrimFloat.ltb _ _) eqn:Hsim; [|now left].
  destruct (delta_is_smaller _ _); [|now left].
  right. split; [reflexivity|]. exists lastVertices. split; [reflexivity|].
  unfold calculateVertexSimilarity, createVertexDelta in *.
  destruct (length lastVertices =? length (MeshDiff.VerticesDelta mesh))%nat eqn:Hlen;
    simpl in *.
  - apply Nat.eqb_eq in Hlen. split; [exact Hlen|reflexivity].
  - vm_compute in Hsim. discriminate.
Qed.

Lemma diffMesh_keeps_anchor_faces (lastMeshes : gmap string (list Z)) (mesh : MeshDiff.t) :
  MeshDiff.AnchorID (snd (diffMesh lastMeshes mesh)) = MeshDiff.AnchorID mesh
  ∧ MeshDiff.FacesDelta (snd (diffMesh lastMeshes mesh)) = MeshDiff.FacesDelta mesh.
Proof.
  destruct (diffMesh_output lastMeshes mesh) as [->|(_ & old & _ & _ & ->)];
    split; reflexivity.
Qed.

Lemma diffMeshes_shape (meshes : list MeshDiff.t) :
  ∀ lastMeshes : gmap string (list Z),
  Forall2 (fun mesh out =>
             MeshDiff.AnchorID out = MeshDiff.AnchorID mesh
             ∧ MeshDiff.FacesDelta out = MeshDiff.FacesDelta mesh
             ∧ (MeshDiff.IsDelta mesh = true → out = mesh))
          meshes (snd (diffMeshes lastMeshes meshes)).
Proof.
  induction meshes as [|m meshes IH]; intros lastMeshes; simpl; [constructor|].
  pose proof (diffMesh_keeps_anchor_faces lastMeshes m) as [Ha Hf].
  assert (Hd : MeshDiff.IsDelta m = true → snd (diffMesh lastMeshes m) = m).
  { intros Hd. unfold diffMesh. now rewrite Hd. }
  destruct (diffMesh lastMeshes m) as [l1 out]. simpl in *.
  specialize (IH l1). destruct (diffMeshes l1 meshes) as [l2 outs]. simpl in *.
  constructor; [repeat split; assumption|exact IH].
Qed.

Lemma applyMeshDiffing_ids (u : Updater) (event : SpatialEvent.t) :
  SpatialEvent.SessionID (fst (applyMeshDiffing u event)) = SpatialEvent.SessionID event
  ∧ SpatialEvent.EventID (fst (applyMeshDiffing u event)) = SpatialEvent.EventID event
  ∧ SpatialEvent.Timestamp (fst (applyMeshDiffing u event)) = SpatialEvent.Timestamp event.
Proof.
  unfold applyMeshDiffing.
  destruct (length (SpatialEvent.Meshes event) =? 0)%nat; [repeat split|].
  destruct (diffMeshes (lastMeshes u) (SpatialEvent.Meshes event)).
  repeat split.
Qed.

(** X1: [applyMeshDiffing] returns an event with the session id, event id,
    timestamp and anchors of its input and as many meshes; each emitted mesh
    keeps the anchor id and the faces payload of the mesh at its position, and
    a mesh that came in as a delta is emitted as it is. *)
Theorem applyMeshDiffing_shape (u : Updater) (event : SpatialEvent.t) :
  let out := fst (applyMeshDiffing u event) in
  SpatialEvent.SessionID out = SpatialEvent.SessionID event
  ∧ SpatialEvent.EventID out = SpatialEvent.EventID event
  ∧ SpatialEvent.Timestamp out = SpatialEvent.Timestamp event
  ∧ SpatialEvent.Anchors out = SpatialEvent.Anchors event
  ∧ Forall2 (fun mesh emitted =>
               MeshDiff.AnchorID emitted = MeshDiff.AnchorID mesh
               ∧ MeshDiff.FacesDelta emitted = MeshDiff.FacesDelta mesh
               ∧ (MeshDiff.IsDelta mesh = true → emitted = mesh))
            (SpatialEvent.Meshes event) (SpatialEvent.Meshes out).
Proof.
  unfold applyMeshDiffing.
  destruct (length (SpatialEvent.Meshes event) =? 0)%nat eqn:Hlen; simpl.
  - apply Nat.eqb_eq in Hlen.
    destruct (SpatialEvent.Meshes event); [|discriminate].
    repeat split; constructor.
  - pose proof (diffMeshes_shape (SpatialEvent.Meshes event) (lastMeshes u)) as H.
    destruct (diffMeshes (lastMeshes u) (SpatialEvent.Meshes event)) as [l outs].
    simpl in *. repeat split; exact H.
Qed.

(** X2: the remembered buffer of an anchor changes only when the event carries a
    full mesh for that anchor: an event without meshes, with delta meshes
    only, or with meshes of other anchors leaves it as it was; batch size and
    pending queue are never touched. *)
Theorem applyMeshDiffing_frame (u : Updater) (event : SpatialEvent.t) (A : string) :
  Forall (fun m => MeshDiff.IsDelta m = true ∨ MeshDiff.AnchorID m ≠ A)
         (SpatialEvent.Meshes event) →
  let u' := snd (applyMeshDiffing u event) in
  lastMeshes u' !! A = lastMeshes u !! A
  ∧ eventQueue u' = eventQueue u
  ∧ batchSize u' = batchSize u.
Proof.
  intros Hall. unfold applyMeshDiffing.
  destruct (length (SpatialEvent.Meshes event) =? 0)%nat; simpl; [repeat split|].
  pose proof (diffMeshes_frame (SpatialEvent.Meshes event) A (lastMeshes u) Hall) as H.
  destruct (diffMeshes (lastMeshes u) (SpatialEvent.Meshes event)) as [l outs].
  simpl in *. repeat split. exact H.
Qed.

End MeshDifferShape.

Section MeshDifferPositions.
Import updater.

Lemma diffMeshes_at (pre : list MeshDiff.t) (mesh : MeshDiff.t) (post : list MeshDiff.t) :
  ∀ lastMeshes : gmap string (list Z),
  Forall (fun m => MeshDiff.IsDelta m = true
                   ∨ MeshDiff.AnchorID m ≠ MeshDiff.AnchorID mesh) pre →
  snd (diffMeshes lastMeshes (pre ++ mesh :: post)%list) !! length pre
  = Some (snd (diffMesh lastMeshes mesh)).
Proof.
  induction pre as [|m pre IH]; intros lastMeshes Hpre; simpl.
  - destruct (diffMesh lastMeshes mesh) as [l1 out].
    destruct (diffMeshes l1 post) as [l2 outs]. reflexivity.
  - inversion Hpre as [|? ? Hm Hrest]; subst.
    pose proof (diffMesh_frame lastMeshes m (MeshDiff.AnchorID mesh) Hm) as Hframe.
    destruct (diffMesh lastMeshes m) as [l1 out]. simpl in Hframe.
    specialize (IH l1 Hrest).
    destruct (diffMeshes l1 (pre ++ mesh :: post)) as [l2 outs]. simpl in *.
    rewrite IH. f_equal. now apply diffMesh_output_local.
Qed.

(** The mesh emitted at the position of [mesh] when no earlier mesh of the
    event is a full mesh of the same anchor. *)
Lemma applyMeshDiffing_at (u : Updater) (event : SpatialEvent.t)
      (pre : list MeshDiff.t) (mesh : MeshDiff.t) (post : list MeshDiff.t) :
  SpatialEvent.Meshes event = (pre ++ mesh :: post)%list →
  Forall (fun m => MeshDiff.IsDelta m = true
                   ∨ MeshDiff.AnchorID m ≠ MeshDiff.AnchorID mesh) pre →
  SpatialEvent.Meshes (fst (applyMeshDiffing u event)) !! length pre
  = Some (snd (diffMesh (lastMeshes u) mesh)).
Proof.
  intros Hmeshes Hpre. unfold applyMeshDiffing. rewrite Hmeshes.
  destruct (length (pre ++ mesh :: post) =? 0)%nat eqn:Hlen.
  - apply Nat.eqb_eq in Hlen. rewrite length_app in Hlen. simpl in Hlen. lia.
  - pose proof (diffMeshes_at pre mesh post (lastMeshes u) Hpre) as H.
    destruct (diffMeshes (lastMeshes u) (pre ++ mesh :: post)) as [l outs].
    exact H.
Qed.

(** X3: a full mesh is emitted unchanged, with [is_delta = false] and its
    whole vertex buffer, when the updater remembers no buffer for its anchor,
    remembers an empty one, or remembers one of a different length. *)
Theorem applyMeshDiffing_first_or_resized
    (u : Updater) (event : SpatialEvent.t)
    (pre : list MeshDiff.t) (mesh : MeshDiff.t) (post : list MeshDiff.t) :
  SpatialEvent.Meshes event = (pre ++ mesh :: post)%list →
  Forall (fun m => MeshDiff.IsDelta m = true
                   ∨ MeshDiff.AnchorID m ≠ MeshDiff.AnchorID mesh) pre →
  (lastMeshes u !! MeshDiff.AnchorID mesh = None
   ∨ ∃ lastVertices,
       lastMeshes u !! MeshDiff.AnchorID mesh = Some lastVertices
       ∧ (lastVertices = []
          ∨ length lastVertices ≠ length (MeshDiff.VerticesDelta mesh))) →
  SpatialEvent.Meshes (fst (applyMeshDiffing u event)) !! length pre = Some mesh.
Proof.
  intros Hmeshes Hpre Hlast.
  rewrite (applyMeshDiffing_at u event pre mesh post Hmeshes Hpre). f_equal.
  destruct (diffMesh_output (lastMeshes u) mesh)
    as [Hsame|(_ & old & Hold & Hlen & _)]; [exact Hsame|].
  unfold diffMesh. destruct (MeshDiff.IsDelta mesh); [reflexivity|].
  destruct Hlast as [Hnone|(lastVertices & Hsome & Hcase)]; [congruence|].
  rewrite Hsome. rewrite Hsome in Hold. injection Hold as <-.
  destruct Hcase as [->|Hne]; [reflexivity|contradiction].
Qed.

(** X4: whatever [applyMeshDiffing] emits for a full mesh can be decoded: it is
    the mesh itself, or it has [is_delta = true] and its vertex payload XORed
    with the buffer remembered for the anchor, which has the same length,
    gives the incoming vertex buffer. *)
Theorem applyMeshDiffing_decodable
    (u : Updater) (event : SpatialEvent.t)
    (pre : list MeshDiff.t) (mesh : MeshDiff.t) (post : list MeshDiff.t) :
  SpatialEvent.Meshes event = (pre ++ mesh :: post)%list →
  Forall (fun m => MeshDiff.IsDelta m = true
                   ∨ MeshDiff.AnchorID m ≠ MeshDiff.AnchorID mesh) pre →
  ∃ emitted,
    SpatialEvent.Meshes (fst (applyMeshDiffing u event)) !! length pre = Some emitted
    ∧ (emitted = mesh
       ∨ (MeshDiff.IsDelta mesh = false
          ∧ MeshDiff.IsDelta emitted = true
          ∧ ∃ lastVertices,
              lastMeshes u !! MeshDiff.AnchorID mesh = Some lastVertices
              ∧ length lastVertices = length (MeshDiff.VerticesDelta mesh)
              ∧ xor_bytes lastVertices (MeshDiff.VerticesDelta emitted)
                = MeshDiff.VerticesDelta mesh)).
Proof.
  intros Hmeshes Hpre.
  exists (snd (diffMesh (lastMeshes u) mesh)).
  split; [now apply (applyMeshDiffing_at u event pre mesh post)|].
  destruct (diffMesh_output (lastMeshes u) mesh)
    as [Hsame|(Hfull & old & Hold & Hlen & Hout)]; [now left|].
  right. rewrite Hout. simpl. repeat split; [assumption|].
  exists old. repeat split; [assumption..|].
  now apply zip_lxor_cancel.
Qed.

Lemma diffMeshes_keep_full_meshes (meshes : list MeshDiff.t) :
  ∀ lastMeshes : gmap string (list Z),
  Forall (fun m => (length (MeshDiff.VerticesDelta m) < checked_length)%nat) meshes →
  snd (diffMeshes lastMeshes meshes) = meshes.
Proof.
  induction meshes as [|m meshes IH]; intros lastMeshes Hall; [reflexivity|].
  inversion Hall as [|? ? Hm Hrest]; subst. simpl.
  pose proof (diffMesh_keeps_full_mesh lastMeshes m Hm) as Hout.
  destruct (diffMesh lastMeshes m) as [l1 out]. simpl in Hout. subst out.
  specialize (IH l1 Hrest). destruct (diffMeshes l1 meshes) as [l2 outs].
  simpl in *. now rewrite IH.
Qed.

(** X5: an event whose vertex buffers are all shorter than 262144 bytes
    comes out of [applyMeshDiffing] exactly as it went in; no mesh is ever
    turned into a delta, whatever the updater remembers. *)
Theorem applyMeshDiffing_emits_unchanged (u : Updater) (event : SpatialEvent.t) :
  Forall (fun m => (length (MeshDiff.VerticesDelta m) < checked_length)%nat)
         (SpatialEvent.Meshes event) →
  fst (applyMeshDiffing u event) = event.
Proof.
  intros Hall. unfold applyMeshDiffing.
  destruct (length (SpatialEvent.Meshes event) =? 0)%nat; [reflexivity|].
  pose proof (diffMeshes_keep_full_meshes _ (lastMeshes u) Hall) as H.
  destruct (diffMeshes (lastMeshes u) (SpatialEvent.Meshes event)) as [l outs].
  simpl in *. subst outs. now destruct event.
Qed.

End MeshDifferPositions.

Section VertexBuffers.
Import updater.

Lemma lxor_byte (a b : Z) : is_byte a → is_byte b → is_byte (Z.lxor a b).
Proof.
  unfold is_byte. intros [Ha0 Ha] [Hb0 Hb]. split.
  - apply Z.lxor_nonneg. lia.
  - destruct (Z.eq_dec (Z.lxor a b) 0) as [->|Hnz]; [lia|].
    assert (0 < Z.lxor a b) by (pose proof (proj2 (Z.lxor_nonneg a b)); lia).
    change 256 with (2 ^ 8). apply Z.log2_lt_pow2; [assumption|].
    pose proof (Z.log2_lxor a b Ha0 Hb0) as Hlog.
    assert (Z.log2 a < 8).
    { destruct (Z.eq_dec a 0) as [->|]; [simpl; lia|].
      apply Z.log2_lt_pow2; [lia|]. change (2 ^ 8) with 256. lia. }
    assert (Z.log2 b < 8).
    { destruct (Z.eq_dec b 0) as [->|]; [simpl; lia|].
      apply Z.log2_lt_pow2; [lia|]. change (2 ^ 8) with 256. lia. }
    lia.
Qed.

(** X6: [createVertexDelta] always returns a buffer as long as the new one
    (also when the lengths differ and it falls back to the new buffer), and a
    buffer of bytes when both inputs are. *)
Theorem createVertexDelta_bytes (old new : list Z) :
  Forall is_byte old → Forall is_byte new →
  length (createVertexDelta old new) = length new
  ∧ Forall is_byte (createVertexDelta old new).
Proof.
  intros Hold Hnew. split; [apply createVertexDelta_length|].
  unfold createVertexDelta.
  destruct (length old =? length new)%nat; simpl; [|exact Hnew].
  clear -Hold Hnew. revert new Hnew.
  induction Hold as [|o old Ho Hold IH]; intros new Hnew; [constructor|].
  destruct Hnew as [|n new Hn Hnew]; simpl; [constructor|].
  constructor; [now apply lxor_byte|now apply IH].
Qed.

(** X7: the delta between a buffer and itself is all zero bytes. *)
Theorem createVertexDelta_same (vertices : list Z) :
  createVertexDelta vertices vertices = replicate (length vertices) 0.
Proof.
  unfold createVertexDelta. rewrite Nat.eqb_refl. simpl.
  induction vertices as [|v vertices IH]; [reflexivity|].
  simpl. now rewrite Z.lxor_nilpotent, IH.
Qed.

Lemma count_matches_sym (a : list Z) : ∀ b, count_matches a b = count_matches b a.
Proof.
  induction a as [|x a IH]; intros [|y b]; simpl; try reflexivity.
  now rewrite IH, (Z.eqb_sym x y).
Qed.

(** X8: the similarity score does not depend on the order of its arguments. *)
Theorem calculateVertexSimilarity_sym (a b : list Z) :
  calculateVertexSimilarity a b = calculateVertexSimilarity b a.
Proof.
  unfold calculateVertexSimilarity.
  rewrite (Nat.eqb_sym (length b) (length a)).
  destruct (length a =? length b)%nat eqn:Hlen; simpl; [|reflexivity].
  apply Nat.eqb_eq in Hlen. rewrite <- Hlen, (count_matches_sym a b).
  reflexivity.
Qed.

End VertexBuffers.

Section Batching.
Import updater.

Lemma ProcessEvent_queue (u : Updater) (event : SpatialEvent.t) :
  eventQueue (fst (ProcessEvent u event))
  = (eventQueue u ++ [fst (applyMeshDiffing u event)])%list
  ∧ batchSize (fst (ProcessEvent u event)) = batchSize u.
Proof.
  unfold ProcessEvent, applyMeshDiffing.
  destruct (length (SpatialEvent.Meshes event) =? 0)%nat; simpl; [split; reflexivity|].
  destruct (diffMeshes (lastMeshes u) (SpatialEvent.Meshes event)) as [l outs].
  simpl. split; reflexivity.
Qed.

(** X9: [ProcessEvent] appends exactly one event, carrying the event id of its
    argument, at the back of the pending queue, and asks for a flush exactly
    when the queue has then reached [batchSize]; an event without meshes is
    enqueued as it is and leaves the remembered buffers alone. *)
Theorem ProcessEvent_enqueues (u : Updater) (event : SpatialEvent.t) :
  let '(u', flush) := ProcessEvent u event in
  (∃ processed,
     eventQueue u' = (eventQueue u ++ [processed])%list
     ∧ SpatialEvent.EventID processed = SpatialEvent.EventID event
     ∧ (SpatialEvent.Meshes event = [] →
        processed = event ∧ lastMeshes u' = lastMeshes u))
  ∧ (flush = true ↔ batchSize u <= Z.of_nat (length (eventQueue u)) + 1).
Proof.
  pose proof (applyMeshDiffing_ids u event) as (_ & Hid & _).
  assert (Hnil : SpatialEvent.Meshes event = [] → applyMeshDiffing u event = (event, u)).
  { intros Hnil. unfold applyMeshDiffing. now rewrite Hnil. }
  assert (Hkeep : eventQueue (snd (applyMeshDiffing u event)) = eventQueue u
                  ∧ batchSize (snd (applyMeshDiffing u event)) = batchSize u).
  { unfold applyMeshDiffing.
    destruct (length (SpatialEvent.Meshes event) =? 0)%nat; [split; reflexivity|].
    destruct (diffMeshes (lastMeshes u) (SpatialEvent.Meshes event)).
    split; reflexivity. }
  unfold ProcessEvent.
  destruct (applyMeshDiffing u event) as [processed u1]. simpl in *.
  destruct Hkeep as [Hq1 Hb1]. split.
  - exists processed. split; [now rewrite Hq1|]. split; [exact Hid|].
    intros Hempty. specialize (Hnil Hempty). injection Hnil as -> ->.
    split; reflexivity.
  - rewrite length_app, Hb1, Hq1. simpl. rewrite Z.leb_le. lia.
Qed.

Lemma run_updater_conserves (ops : list updater_op) :
  ∀ u : Updater,
  let '(u', batches) := run_updater u ops in
  SpatialEvent.EventID <$> (concat batches ++ eventQueue u')%list
  = ((SpatialEvent.EventID <$> eventQueue u)
       ++ (SpatialEvent.EventID <$> enqueued ops))%list
  ∧ Forall (fun batch => batch ≠ []) batches
  ∧ batchSize u' = batchSize u.
Proof.
  induction ops as [|[event|d] ops IH]; intros u; simpl.
  - rewrite app_nil_r. repeat split. constructor.
  - specialize (IH (fst (ProcessEvent u event))).
    destruct (run_updater (fst (ProcessEvent u event)) ops) as [u' batches].
    destruct IH as (Hids & Hne & Hb).
    pose proof (ProcessEvent_queue u event) as [Hq Hb0].
    pose proof (applyMeshDiffing_ids u event) as (_ & Hid & _).
    repeat split; [|assumption|congruence].
    rewrite Hids, Hq, fmap_app. simpl. rewrite Hid.
    rewrite <- app_assoc. reflexivity.
  - unfold flushBatch.
    destruct (eventQueue u) as [|e q] eqn:Hq; simpl.
    + specialize (IH u). destruct (run_updater u ops) as [u' batches].
      now rewrite Hq in IH.
    + specialize (IH (mkUpdater (batchSize u) [] (lastMeshes u))).
      destruct (run_updater (mkUpdater (batchSize u) [] (lastMeshes u)) ops)
        as [u' batches].
      destruct IH as (Hids & Hne & Hb). simpl in *.
      repeat split; [|constructor; [discriminate|assumption]|assumption].
      rewrite <- app_assoc, fmap_app, Hids. reflexivity.
Qed.

(** X10: over any interleaving of [ProcessEvent] and [flushBatch] calls,
    whatever the sink answers, the batches handed to [sendToSTAG] followed by
    the events still pending are the events that were pending at the start
    followed by the events processed, each once and in order; no batch is
    empty. *)
Theorem run_updater_no_loss_no_duplicate (u : Updater) (ops : list updater_op) :
  SpatialEvent.EventID <$> (concat (snd (run_updater u ops))
                            ++ eventQueue (fst (run_updater u ops)))%list
  = ((SpatialEvent.EventID <$> eventQueue u)
       ++ (SpatialEvent.EventID <$> enqueued ops))%list
  ∧ Forall (fun batch => batch ≠ []) (snd (run_updater u ops)).
Proof.
  pose proof (run_updater_conserves ops u) as H.
  destruct (run_updater u ops) as [u' batches]. simpl.
  destruct H as (H1 & H2 & _). split; assumption.
Qed.

End Batching.

Section WireCompression.
Import updater.

Variable gzip : list Z → option (list Z).
Variable gunzip : list Z → option (list Z).

(** X11: what [compressMeshData] produces, [decompressDraco] of the Parser
    turns back into the original buffer, provided gzip output is never empty
    and inflates to its input; the reported saving is the difference of the
    two lengths, and an empty buffer is passed through with a saving of 0. *)
Theorem compressMeshData_roundtrip (vertices compressed : list Z) (bytesSaved : Z) :
  (∀ v c, gzip v = Some c → c ≠ [] ∧ gunzip c = Some v) →
  compressMeshData gzip vertices = Some (compressed, bytesSaved) →
  parser.decompressDraco gunzip compressed = Ok vertices
  ∧ bytesSaved = Z.of_nat (length vertices) - Z.of_nat (length compressed)
  ∧ (vertices = [] → compressed = [] ∧ bytesSaved = 0).
Proof.
  intros Hcodec Hrun. unfold compressMeshData in Hrun.
  destruct vertices as [|v vs].
  - simpl in Hrun. injection Hrun as <- <-. repeat split; reflexivity.
  - change (length (v :: vs) =? 0)%nat with false in Hrun.
    destruct (gzip (v :: vs)) as [c|] eqn:Hgz; [|discriminate].
    injection Hrun as <- <-. destruct (Hcodec _ _ Hgz) as [Hne Hback].
    split; [|split; [reflexivity|discriminate]].
    unfold parser.decompressDraco, parser.decompressGzip.
    destruct c as [|c0 c]; [contradiction|].
    change (length (c0 :: c) =? 0)%nat with false. cbv iota.
    now rewrite Hback.
Qed.

Lemma compressMesh_shape (mesh : MeshDiff.t) :
  MeshDiff.AnchorID (compressMesh gzip mesh) = MeshDiff.AnchorID mesh
  ∧ MeshDiff.FacesDelta (compressMesh gzip mesh) = MeshDiff.FacesDelta mesh
  ∧ MeshDiff.IsDelta (compressMesh gzip mesh) = MeshDiff.IsDelta mesh
  ∧ match gzip (MeshDiff.VerticesDelta mesh) with
    | Some c =>
        MeshDiff.VerticesDelta mesh ≠ [] →
        MeshDiff.VerticesDelta (compressMesh gzip mesh) = c
    | None => compressMesh gzip mesh = mesh
    end
  ∧ (MeshDiff.VerticesDelta mesh = [] → compressMesh gzip mesh = mesh).
Proof.
  unfold compressMesh, compressMeshData.
  destruct (MeshDiff.VerticesDelta mesh) as [|v vs] eqn:Hv; simpl.
  - repeat split. destruct (gzip []); [intros H; now contradiction H|reflexivity].
  - destruct (gzip (v :: vs)) as [c|]; simpl; repeat split; discriminate.
Qed.

(** X12: the events marshalled into a batch are the events of the batch, in
    order, with their session id, event id, timestamp and anchors; every mesh
    keeps its anchor id, faces payload and [is_delta] flag, and only a
    non-empty vertex payload that gzip could compress is replaced, by the gzip
    output. *)
Theorem compressedEvents_shape (events : list SpatialEvent.t) :
  Forall2
    (fun event sent =>
       SpatialEvent.SessionID sent = SpatialEvent.SessionID event
       ∧ SpatialEvent.EventID sent = SpatialEvent.EventID event
       ∧ SpatialEvent.Timestamp sent = SpatialEvent.Timestamp event
       ∧ SpatialEvent.Anchors sent = SpatialEvent.Anchors event
       ∧ Forall2
           (fun mesh out =>
              MeshDiff.AnchorID out = MeshDiff.AnchorID mesh
              ∧ MeshDiff.FacesDelta out = MeshDiff.FacesDelta mesh
              ∧ MeshDiff.IsDelta out = MeshDiff.IsDelta mesh
              ∧ (out = mesh
                 ∨ (MeshDiff.VerticesDelta mesh ≠ []
                    ∧ gzip (MeshDiff.VerticesDelta mesh)
                      = Some (MeshDiff.VerticesDelta out))))
           (SpatialEvent.Meshes event) (SpatialEvent.Meshes sent))
    events (compressedEvents gzip events).
Proof.
  unfold compressedEvents.
  induction events as [|event events IH]; simpl; constructor; [|exact IH].
  simpl. repeat split.
  induction (SpatialEvent.Meshes event) as [|mesh meshes IHm]; simpl;
    constructor; [|exact IHm].
  destruct (compressMesh_shape mesh) as (Ha & Hf & Hd & Hv & He).
  repeat split; try assumption.
  destruct (MeshDiff.VerticesDelta mesh) as [|v vs] eqn:Hvs.
  - left. now apply He.
  - destruct (gzip (v :: vs)) as [c|] eqn:Hgz; [|now left].
    right. split; [discriminate|]. rewrite Hv; [reflexivity|discriminate].
Qed.

End WireCompression.

Section WireCompressionExamples.
Import updater.

Let toy_gzip (data : list Z) : option (list Z) := Some (31 :: 139 :: data).
Let toy_gunzip' (data : list Z) : option (list Z) :=
  match data with
  | 31 :: 139 :: payload => Some payload
  | _ => None
  end.

Lemma compressMeshData_roundtrip_witness :
  parser.decompressDraco toy_gunzip' [31; 139; 1; 2; 3] = Ok [1; 2; 3]
  ∧ -2 = Z.of_nat (length [1; 2; 3]) - Z.of_nat (length [31; 139; 1; 2; 3])
  ∧ ([1; 2; 3] = [] → [31; 139; 1; 2; 3] = [] ∧ -2 = 0).
Proof.
  apply (compressMeshData_roundtrip toy_gzip toy_gunzip' [1; 2; 3] [31; 139; 1; 2; 3] (-2)).
  - intros v c [= <-]. split; [discriminate|reflexivity].
  - reflexivity.
Defined.

End WireCompressionExamples.

(** * Further properties of the Transformer *)

Section TimestampWindow.
Import transformer.

Lemma NormalizeTimestamp_cases (now t : Z) :
  int64_min + 3600000 <= now <= int64_max - 60000 →
  NormalizeTimestamp now t = now
  ∨ (now - 3600000 <= NormalizeTimestamp now t <= now + 60000
     ∧ NormalizeTimestamp now t
       = if t <? 1000000000000 then wrap64 (t * 1000) else t).
Proof.
  unfold int64_min, int64_max. intros Hnow. unfold NormalizeTimestamp.
  rewrite (wrap64_id (now + 60000)), (wrap64_id (now - 3600000))
    by (unfold is_int64, int64_min, int64_max; lia).
  set (t' := if t <? 1000000000000 then wrap64 (t * 1000) else t).
  destruct (Z.ltb_spec (now + 60000) t'); simpl; [now left|].
  destruct (Z.ltb_spec t' (now - 3600000)); [now left|].
  right. split; [lia|reflexivity].
Qed.

(** X13: for every input, overflowing or not, [NormalizeTimestamp] returns a
    timestamp at most one hour before and at most one minute after the clock
    reading. *)
Theorem NormalizeTimestamp_in_window (now t : Z) :
  int64_min + 3600000 <= now <= int64_max - 60000 →
  now - 3600000 <= NormalizeTimestamp now t <= now + 60000.
Proof.
  intros Hnow.
  destruct (NormalizeTimestamp_cases now t Hnow) as [->|[H _]]; lia.
Qed.

(** X14: once the clock is past 10^12 ms plus an hour (September 2001),
    normalising a normalised timestamp changes nothing. *)
Theorem NormalizeTimestamp_idempotent (now t : Z) :
  1000000000000 + 3600000 <= now <= int64_max - 60000 →
  NormalizeTimestamp now (NormalizeTimestamp now t) = NormalizeTimestamp now t.
Proof.
  unfold int64_max. intros Hnow.
  assert (Hrange : int64_min + 3600000 <= now <= int64_max - 60000)
    by (unfold int64_min, int64_max; lia).
  assert (Hwin : now - 3600000 <= NormalizeTimestamp now t <= now + 60000)
    by (destruct (NormalizeTimestamp_cases now t Hrange) as [->|[H _]]; lia).
  set (r := NormalizeTimestamp now t) in *.
  destruct (NormalizeTimestamp_cases now r Hrange) as [Hnow'|[_ Heq]].
  - unfold NormalizeTimestamp in Hnow' |- *.
    rewrite (wrap64_id (now + 60000)), (wrap64_id (now - 3600000)) in *
      by (unfold is_int64, int64_min, int64_max; lia).
    destruct (Z.ltb_spec r 1000000000000); [lia|].
    destruct (Z.ltb_spec (now + 60000) r); [lia|].
    destruct (Z.ltb_spec r (now - 3600000)); [lia|]. reflexivity.
  - rewrite Heq. destruct (Z.ltb_spec r 1000000000000); [lia|reflexivity].
Qed.

Lemma NormalizeTimestamp_in_window_witness :
  1700000000008 - 3600000
  <= NormalizeTimestamp 1700000000008 (-2305843007513693952)
  <= 1700000000008 + 60000.
Proof.
  apply (NormalizeTimestamp_in_window 1700000000008 (-2305843007513693952)).
  unfold int64_min, int64_max. lia.
Defined.

Lemma NormalizeTimestamp_idempotent_witness :
  NormalizeTimestamp 1700000000000 (NormalizeTimestamp 1700000000000 1699999999)
  = NormalizeTimestamp 1700000000000 1699999999.
Proof.
  apply (NormalizeTimestamp_idempotent 1700000000000 1699999999).
  unfold int64_max. lia.
Defined.

End TimestampWindow.

Section TransformerIdentity.
Import transformer.

Variable uuid : nat → string.

Lemma Transform_draws (packet : StreamPacket.t) (s : state) :
  ∀ r s', Transform uuid packet s = (r, s') →
  (uuid_calls s < uuid_calls s')%nat
  ∧ ∃ event, r = Ok event ∧ SpatialEvent.EventID event = uuid (uuid_calls s).
Proof.
  intros r s' Hrun.
  destruct (Transform_cases uuid packet s)
    as [(pose & anchorID & s2 & _ & Hget & Heq)
       |[(mesh & _ & _ & Heq)|(_ & _ & Heq)]];
    rewrite Heq in Hrun; injection Hrun as <- <-.
  - destruct (getOrCreateAnchorID_stored uuid _ _ _ _ Hget) as (_ & _ & Hle).
    simpl in Hle. split; [lia|]. eexists. split; reflexivity.
  - simpl. split; [lia|]. eexists. split; reflexivity.
  - simpl. split; [lia|]. eexists. split; reflexivity.
Qed.

Lemma Transform_all_event_ids (packets : list StreamPacket.t) :
  ∀ (s : state) results s',
  Transform_all uuid packets s = (results, s') →
  (uuid_calls s <= uuid_calls s')%nat
  ∧ ∃ ks : list nat,
      Forall2 (fun r k => ∃ event, r = Ok event
                                   ∧ SpatialEvent.EventID event = uuid k)
              results ks
      ∧ Forall (fun k => (uuid_calls s <= k < uuid_calls s')%nat) ks
      ∧ NoDup ks.
Proof.
  induction packets as [|p packets IH]; intros s results s' Hrun.
  - injection Hrun as <- <-. split; [lia|]. exists [].
    repeat split; constructor.
  - simpl in Hrun. unfold bind in Hrun.
    destruct (Transform uuid p s) as [r s1] eqn:Hstep.
    destruct (Transform_all uuid packets s1) as [rs s2] eqn:Hrest.
    injection Hrun as <- <-.
    destruct (Transform_draws p s r s1 Hstep) as (Hlt & event & -> & Hid).
    destruct (IH s1 rs s2 Hrest) as (Hle & ks & Hks & Hrange & Hnodup).
    split; [lia|]. exists (uuid_calls s :: ks). repeat split.
    + constructor; [|exact Hks]. exists event. split; [reflexivity|exact Hid].
    + constructor; [lia|].
      eapply Forall_impl; [exact Hrange|]. simpl. intros k Hk. lia.
    + constructor; [|exact Hnodup].
      intros Hin. rewrite Forall_forall in Hrange.
      specialize (Hrange _ Hin). lia.
Qed.

(** X15: with a UUID source that never repeats, the events of a run of
    [Transform] calls have pairwise different event ids. *)
Theorem Transform_all_event_ids_distinct
    (Hinj : Inj (=) (=) uuid)
    (packets : list StreamPacket.t) (s : state)
    (results : list (result SpatialEvent.t)) (s' : state)
    (i j : nat) (event1 event2 : SpatialEvent.t) :
  Transform_all uuid packets s = (results, s') →
  results !! i = Some (Ok event1) →
  results !! j = Some (Ok event2) →
  i ≠ j →
  SpatialEvent.EventID event1 ≠ SpatialEvent.EventID event2.
Proof.
  intros Hrun Hi Hj Hne Hsame. apply Hne.
  destruct (Transform_all_event_ids packets s results s' Hrun)
    as (_ & ks & Hks & _ & Hnodup).
  destruct (Forall2_lookup_l _ _ _ _ _ Hks Hi) as (k1 & Hk1 & e1 & He1 & Hid1).
  destruct (Forall2_lookup_l _ _ _ _ _ Hks Hj) as (k2 & Hk2 & e2 & He2 & Hid2).
  injection He1 as <-. injection He2 as <-.
  assert (k1 = k2) by (apply Hinj; congruence). subst k2.
  eapply NoDup_lookup; eassumption.
Qed.

(** One call adds the session of a pose packet to the map and nothing else. *)
Lemma Transform_dom (packet : StreamPacket.t) (s : state) :
  ∀ r s', Transform uuid packet s = (r, s') →
  dom (anchorMap (self s'))
  = dom (anchorMap (self s))
    ∪ (if String.eqb (StreamPacket.Type_ packet) "pose"
       then match PacketData.Pose (StreamPacket.Data packet) with
            | Some _ => {[StreamPacket.SessionID packet]}
            | None => ∅
            end
       else ∅).
Proof.
  intros r s' Hrun.
  destruct (Transform_cases uuid packet s)
    as [(pose & anchorID & s2 & [Hty Hpose] & Hget & Heq)
       |[(mesh & Hty & _ & Heq)|(Hno & _ & Heq)]];
    rewrite Heq in Hrun; injection Hrun as <- <-.
  - rewrite Hty, Hpose. simpl.
    destruct (anchorMap (self s) !! StreamPacket.SessionID packet) as [a|] eqn:Hl.
    + rewrite (getOrCreateAnchorID_hit uuid _ a
                 (mkState (self s) (S (uuid_calls s))) Hl) in Hget.
      injection Hget as <- <-. simpl.
      apply (elem_of_dom_2 (D := gset string)) in Hl.
      symmetry. rewrite (comm_L (∪)).
      now apply subseteq_union_1_L, singleton_subseteq_l.
    + rewrite (getOrCreateAnchorID_miss uuid _
                 (mkState (self s) (S (uuid_calls s))) Hl) in Hget.
      injection Hget as <- <-. simpl. rewrite dom_insert_L. apply (comm_L (∪)).
  - rewrite Hty. simpl. now rewrite (right_id_L ∅ (∪)).
  - simpl. destruct (String.eqb_spec (StreamPacket.Type_ packet) "pose") as [Hp|];
      [|now rewrite (right_id_L ∅ (∪))].
    destruct (PacketData.Pose (StreamPacket.Data packet)) as [pose|] eqn:Hpose;
      [|now rewrite (right_id_L ∅ (∪))].
    exfalso. apply (Hno pose). now split.
Qed.

End TransformerIdentity.

Section TransformerSessions.
Import transformer.

Variable uuid : nat → string.

Lemma Transform_all_dom (packets : list StreamPacket.t) :
  ∀ (s : state) results s',
  Transform_all uuid packets s = (results, s') →
  dom (anchorMap (self s')) = dom (anchorMap (self s)) ∪ pose_sessions packets.
Proof.
  induction packets as [|p packets IH]; intros s results s' Hrun.
  - injection Hrun as <- <-. simpl. now rewrite (right_id_L ∅ (∪)).
  - simpl in Hrun. unfold bind in Hrun.
    destruct (Transform uuid p s) as [r s1] eqn:Hstep.
    destruct (Transform_all uuid packets s1) as [rs s2] eqn:Hrest.
    injection Hrun as <- <-.
    rewrite (IH s1 rs s2 Hrest), (Transform_dom uuid p s r s1 Hstep). simpl.
    now rewrite (assoc_L (∪)).
Qed.

(** X16: after a run of [Transform] calls from [New], the anchor map holds an
    entry exactly for the session ids of the pose packets seen, so the
    "active_sessions" statistic is the number of distinct such sessions; mesh
    packets, packets of other types and packets without payload add none. *)
Theorem Transform_all_active_sessions
    (uuid_calls0 : nat) (packets : list StreamPacket.t)
    (results : list (result SpatialEvent.t)) (s' : state) :
  Transform_all uuid packets (mkState New uuid_calls0) = (results, s') →
  dom (anchorMap (self s')) = pose_sessions packets
  ∧ active_sessions s' = size (pose_sessions packets).
Proof.
  intros Hrun.
  pose proof (Transform_all_dom packets _ _ _ Hrun) as Hdom. simpl in Hdom.
  rewrite dom_empty_L, (left_id_L ∅ (∪)) in Hdom.
  split; [exact Hdom|]. unfold active_sessions.
  now rewrite <- size_dom, Hdom.
Qed.

Lemma ClearStaleSession_run (sessionID : string) (s : state) :
  ClearStaleSession sessionID s
  = (tt, mkState (mkTransformer (delete sessionID (anchorMap (self s))))
                 (uuid_calls s)).
Proof. reflexivity. Qed.

(** X17: [ClearStaleSession] forgets the anchor id of its session and of no
    other, and draws no UUID; the next pose packet of that session is given an
    anchor id that no session held before, when the UUID source never
    repeats. *)
Theorem ClearStaleSession_then_pose
    (Hinj : Inj (=) (=) uuid)
    (s : state) (packet : StreamPacket.t) (pose : PoseData.t) :
  anchors_fresh uuid s →
  is_pose packet pose →
  let s1 := snd (ClearStaleSession (StreamPacket.SessionID packet) s) in
  anchorMap (self s1) !! StreamPacket.SessionID packet = None
  ∧ (∀ other, other ≠ StreamPacket.SessionID packet →
              anchorMap (self s1) !! other = anchorMap (self s) !! other)
  ∧ uuid_calls s1 = uuid_calls s
  ∧ ∃ anchorID event,
      fst (Transform uuid packet s1) = Ok event
      ∧ SpatialEvent.Anchors event
        = [Anchor.mk anchorID pose (StreamPacket.Timestamp packet)]
      ∧ ∀ sessionID old,
          anchorMap (self s) !! sessionID = Some old → anchorID ≠ old.
Proof.
  intros [Hdrawn _] Hpose. rewrite ClearStaleSession_run. simpl.
  split; [apply lookup_delete_eq|].
  split; [intros other Hne; now apply lookup_delete_ne|].
  split; [reflexivity|].
  set (s1 := mkState (mkTransformer (delete (StreamPacket.SessionID packet)
                                            (anchorMap (self s))))
                     (uuid_calls s)).
  destruct (Transform_cases uuid packet s1)
    as [(pose' & anchorID & s2 & [_ Hpose'] & Hget & Heq)
       |[(mesh & Hm & _ & _)|(Hno & _ & _)]].
  - destruct Hpose as [Hty Hp]. assert (pose' = pose) by congruence. subst pose'.
    rewrite getOrCreateAnchorID_miss in Hget by (simpl; apply lookup_delete_eq).
    injection Hget as <- <-. simpl.
    eexists _, _. rewrite Heq. simpl.
    split; [reflexivity|]. split; [reflexivity|].
    intros sid old Hold Heq'.
    destruct (Hdrawn _ _ Hold) as (k & Hk & ->).
    apply (inj (String.app "anchor_")) in Heq'. apply Hinj in Heq'. lia.
  - destruct Hpose as [Hty _]. rewrite Hty in Hm. discriminate.
  - exfalso. apply (Hno pose). exact Hpose.
Qed.

(** X18: a mesh packet with a payload becomes an event with no anchors and
    exactly one mesh-diff, which carries the client's anchor id, vertex and
    face buffers with [is_delta = false]; the session-to-anchor map is not
    consulted or changed, so mesh packets never allocate an anchor id. *)
Theorem Transform_mesh (packet : StreamPacket.t) (mesh : MeshData.t) (s : state) :
  StreamPacket.Type_ packet = "mesh" →
  PacketData.Mesh (StreamPacket.Data packet) = Some mesh →
  ∃ event s',
    Transform uuid packet s = (Ok event, s')
    ∧ SpatialEvent.Anchors event = []
    ∧ SpatialEvent.Meshes event
      = [MeshDiff.mk (MeshData.AnchorID mesh) (MeshData.Vertices mesh)
                     (MeshData.Faces mesh) false]
    ∧ self s' = self s
    ∧ uuid_calls s' = S (uuid_calls s).
Proof.
  intros Hty Hmesh.
  destruct (Transform_cases uuid packet s)
    as [(pose & anchorID & s2 & [Hp _] & _ & _)
       |[(mesh' & _ & Hmesh' & Heq)|(_ & Hno & _)]].
  - rewrite Hty in Hp. discriminate.
  - assert (mesh' = mesh) by congruence. subst mesh'.
    eexists _, _. split; [exact Heq|]. repeat split.
  - exfalso. apply Hno. split; [assumption|congruence].
Qed.

End TransformerSessions.

(** * Further properties of the Parser *)

Section ParserShape.
Import parser.

Variable gunzip : list Z → option (list Z).

(** X19: an accepted pose packet is returned as it came in. *)
Theorem ParsePacket_pose_unchanged (packet parsed : StreamPacket.t) :
  StreamPacket.Type_ packet = "pose" →
  ParsePacket gunzip packet = Ok parsed →
  parsed = packet.
Proof.
  intros Hty. unfold ParsePacket. destruct (validatePacket packet); [discriminate|].
  rewrite Hty. simpl. unfold parsePosePacket.
  destruct (PacketData.Pose (StreamPacket.Data packet)) as [pose|]; [|discriminate].
  destruct (validatePose pose); [discriminate|]. now intros [= <-].
Qed.

(** X20: an accepted mesh packet keeps its anchor id and whatever pose payload
    it carries; its faces buffer comes out as it is or gzip-decompressed, and
    an empty faces buffer stays empty.  When neither buffer is a gzip stream
    the packet is returned as it came in. *)
Theorem ParsePacket_mesh_fields
    (packet parsed : StreamPacket.t) (mesh : MeshData.t) :
  StreamPacket.Type_ packet = "mesh" →
  PacketData.Mesh (StreamPacket.Data packet) = Some mesh →
  ParsePacket gunzip packet = Ok parsed →
  ∃ mesh',
    PacketData.Mesh (StreamPacket.Data parsed) = Some mesh'
    ∧ PacketData.Pose (StreamPacket.Data parsed)
      = PacketData.Pose (StreamPacket.Data packet)
    ∧ MeshData.AnchorID mesh' = MeshData.AnchorID mesh
    ∧ MeshData.AnchorID mesh' ≠ ""
    ∧ (MeshData.Faces mesh' = MeshData.Faces mesh
       ∨ gunzip (MeshData.Faces mesh) = Some (MeshData.Faces mesh'))
    ∧ (MeshData.Faces mesh = [] → MeshData.Faces mesh' = [])
    ∧ (gunzip (MeshData.Vertices mesh) = None →
       MeshData.Faces mesh = [] ∨ gunzip (MeshData.Faces mesh) = None →
       parsed = packet).
Proof.
  intros Hty Hmesh. unfold ParsePacket.
  destruct (validatePacket packet); [discriminate|].
  rewrite Hty. simpl. unfold parseMeshPacket. rewrite Hmesh.
  destruct (length (MeshData.Vertices mesh) =? 0)%nat eqn:Hlen; [discriminate|].
  destruct (String.eqb_spec (MeshData.AnchorID mesh) "") as [|Hne]; [discriminate|].
  intros [= <-]. simpl. eexists. split; [reflexivity|]. simpl.
  split; [reflexivity|]. split; [reflexivity|]. split; [exact Hne|].
  unfold decompressDraco, decompressGzip. rewrite Hlen.
  destruct mesh as [vertices faces anchorID]. simpl in *.
  destruct faces as [|f faces]; simpl.
  - split; [now left|]. split; [reflexivity|].
    intros Hraw _. rewrite Hraw.
    destruct packet as [sid fn ts ty [pose m]]. simpl in *. congruence.
  - split; [destruct (gunzip (f :: faces)); [right|left]; reflexivity|].
    split; [discriminate|].
    intros Hraw [Hnil|Hrawf]; [discriminate|]. rewrite Hraw, Hrawf.
    destruct packet as [sid fn ts ty [pose m]]. simpl in *. congruence.
Qed.

End ParserShape.

(** * The message pipeline *)

Section PipelineFacts.
Import relay.

Variable gunzip : list Z → option (list Z).
Variable uuid : nat → string.

(** X21: a packet the Parser accepted becomes an event with exactly one
    record: for a pose packet one anchor and no mesh, for a mesh packet no
    anchor and one full mesh-diff with a non-empty anchor id and a non-empty
    or gzip-decompressed vertex buffer. *)
Theorem accepted_packet_one_record
    (packet parsed : StreamPacket.t) (s : transformer.state) :
  parser.ParsePacket gunzip packet = Ok parsed →
  ∃ event s',
    transformer.Transform uuid parsed s = (Ok event, s')
    ∧ ((StreamPacket.Type_ packet = "pose"
        ∧ length (SpatialEvent.Anchors event) = 1%nat
        ∧ SpatialEvent.Meshes event = [])
       ∨ (StreamPacket.Type_ packet = "mesh"
          ∧ SpatialEvent.Anchors event = []
          ∧ ∃ mesh, SpatialEvent.Meshes event = [mesh]
                    ∧ MeshDiff.IsDelta mesh = false
                    ∧ MeshDiff.AnchorID mesh ≠ "")).
Proof.
  intros Hparse.
  assert (Hcase : (StreamPacket.Type_ packet = "pose"
                   ∧ ∃ pose, is_pose parsed pose)
                  ∨ (StreamPacket.Type_ packet = "mesh"
                     ∧ StreamPacket.Type_ parsed = "mesh"
                     ∧ ∃ mesh, PacketData.Mesh (StreamPacket.Data parsed) = Some mesh
                               ∧ MeshData.AnchorID mesh ≠ "")).
  { revert Hparse. unfold parser.ParsePacket.
    destruct (parser.validatePacket packet); [discriminate|].
    destruct (String.eqb_spec (StreamPacket.Type_ packet) "pose") as [Hp|Hp].
    - unfold parser.parsePosePacket.
      destruct (PacketData.Pose (StreamPacket.Data packet)) as [pose|] eqn:Hpose;
        [|discriminate].
      destruct (parser.validatePose pose); [discriminate|].
      intros [= <-]. left. split; [assumption|]. exists pose. now split.
    - destruct (String.eqb_spec (StreamPacket.Type_ packet) "mesh") as [Hm|Hm];
        [|discriminate].
      unfold parser.parseMeshPacket.
      destruct (PacketData.Mesh (StreamPacket.Data packet)) as [mesh|]; [|discriminate].
      destruct (length (MeshData.Vertices mesh) =? 0)%nat; [discriminate|].
      destruct (String.eqb_spec (MeshData.AnchorID mesh) ""); [discriminate|].
      intros [= <-]. right. simpl. split; [assumption|]. split; [assumption|].
      eexists. split; [reflexivity|]. assumption. }
  destruct Hcase as [[Hty (pose & Hpose)]|(Hty & Hty' & mesh & Hmesh & Hne)].
  - destruct (transformer.Transform uuid parsed s) as [r s'] eqn:Hrun.
    destruct (Transform_pose_anchor uuid parsed pose s Hpose r s' Hrun)
      as (anchorID & event & -> & _ & Hanchors & _).
    exists event, s'. split; [reflexivity|]. left.
    split; [assumption|]. rewrite Hanchors. split; [reflexivity|].
    destruct (Transform_cases uuid parsed s)
      as [(pose' & a & s2 & _ & _ & Heq)
         |[(m & Hm & _ & _)|(Hno & _ & _)]].
    + rewrite Heq in Hrun. now injection Hrun as <- <-.
    + destruct Hpose as [Hp _]. rewrite Hp in Hm. discriminate.
    + exfalso. now apply (Hno pose).
  - destruct (Transform_cases uuid parsed s)
      as [(pose & a & s2 & [Hp _] & _ & _)
         |[(mesh' & _ & Hmesh' & Heq)|(_ & Hno & _)]].
    + rewrite Hty' in Hp. discriminate.
    + assert (mesh' = mesh) by congruence. subst mesh'.
      eexists _, _. split; [exact Heq|]. right. simpl.
      split; [assumption|]. split; [reflexivity|].
      eexists. split; [reflexivity|]. split; [reflexivity|exact Hne].
    + exfalso. apply Hno. split; [assumption|congruence].
Qed.

Lemma total_inc (labels : string * string) (c : gmap (string * string) nat) :
  total (inc labels c) = S (total c).
Proof.
  unfold total, inc.
  assert (Hcomm : ∀ (m : gmap (string * string) nat) (j1 j2 : string * string)
                    (z1 z2 y : nat),
             j1 ≠ j2 → m !! j1 = Some z1 → m !! j2 = Some z2 →
             (z1 + (z2 + y) = z2 + (z1 + y))%nat) by (intros; lia).
  destruct (c !! labels) as [n|] eqn:Hl; simpl.
  - rewrite <- insert_delete_eq.
    rewrite map_fold_insert_L; [|apply Hcomm|apply lookup_delete_eq].
    rewrite (map_fold_delete_L _ _ labels n c); [|apply Hcomm|exact Hl].
    reflexivity.
  - rewrite map_fold_insert_L; [reflexivity|apply Hcomm|exact Hl].
Qed.

(** What one iteration of the loop does to the pipeline. *)
Lemma processMessage_step (p : Pipeline) (packet : StreamPacket.t) :
  let p' := processMessage gunzip uuid p packet in
  if is_err (parser.ParsePacket gunzip packet) then
    transformerInstance p' = transformerInstance p
    ∧ updaterInstance p' = updaterInstance p
    ∧ PacketsProcessed (relayMetrics p') = PacketsProcessed (relayMetrics p)
    ∧ PacketErrors (relayMetrics p')
      = inc (StreamPacket.Type_ packet, "parse_error") (PacketErrors (relayMetrics p))
  else
    (∃ event,
       updater.eventQueue (updaterInstance p')
       = (updater.eventQueue (updaterInstance p) ++ [event])%list
       ∧ SpatialEvent.SessionID event = StreamPacket.SessionID packet
       ∧ SpatialEvent.Timestamp event = StreamPacket.Timestamp packet)
    ∧ PacketsProcessed (relayMetrics p')
      = inc (StreamPacket.Type_ packet, "success") (PacketsProcessed (relayMetrics p))
    ∧ PacketErrors (relayMetrics p') = PacketErrors (relayMetrics p).
Proof.
  unfold processMessage.
  destruct (parser.ParsePacket gunzip packet) as [parsed|e] eqn:Hparse; simpl.
  - destruct (transformer.Transform uuid parsed (transformerInstance p))
      as [r t'] eqn:Hrun.
    destruct (Transform_event_fields uuid parsed _ r t' Hrun)
      as (event & -> & Hsid & _ & Hts).
    destruct (ParsePacket_keeps_session gunzip packet parsed Hparse) as [Hs Ht].
    pose proof (applyMeshDiffing_ids (updaterInstance p) event) as (Hs1 & _ & Ht1).
    pose proof (ProcessEvent_queue (updaterInstance p) event) as [Hq _].
    destruct (updater.ProcessEvent (updaterInstance p) event) as [u' flush].
    simpl in *. repeat split.
    exists (fst (updater.applyMeshDiffing (updaterInstance p) event)).
    repeat split; [exact Hq|congruence|congruence].
  - repeat split.
Qed.

End PipelineFacts.

Section PipelineCounts.
Import relay.

Variable gunzip : list Z → option (list Z).
Variable uuid : nat → string.

(** X22: over any list of messages, [processMessages] counts every accepted
    packet once under "success" and every rejected packet once under
    "parse_error", and records no other error label; as long as no flush
    intervenes, the pending queue grows by one event per accepted packet. *)
Theorem processMessages_counts (packets : list StreamPacket.t) (p : Pipeline) :
  let p' := processMessages gunzip uuid p packets in
  total (PacketsProcessed (relayMetrics p'))
  = (total (PacketsProcessed (relayMetrics p)) + accepted gunzip packets)%nat
  ∧ (total (PacketErrors (relayMetrics p')) + accepted gunzip packets
     = total (PacketErrors (relayMetrics p)) + length packets)%nat
  ∧ (∀ packetType errorType,
       errorType ≠ "parse_error" →
       PacketErrors (relayMetrics p') !! (packetType, errorType)
       = PacketErrors (relayMetrics p) !! (packetType, errorType))
  ∧ length (updater.eventQueue (updaterInstance p'))
    = (length (updater.eventQueue (updaterInstance p)) + accepted gunzip packets)%nat.
Proof.
  unfold processMessages. revert p.
  induction packets as [|packet packets IH]; intros p; simpl.
  - repeat split; lia.
  - specialize (IH (processMessage gunzip uuid p packet)).
    destruct IH as (Hok & Herr & Hlabels & Hq).
    pose proof (processMessage_step gunzip uuid p packet) as Hstep. simpl in Hstep.
    destruct (is_err (parser.ParsePacket gunzip packet)).
    + destruct Hstep as (_ & Hu & Hpp & Hpe).
      rewrite Hpp in Hok. rewrite Hpe, total_inc in Herr. rewrite Hu in Hq.
      split; [lia|]. split; [lia|]. split; [|lia].
      intros ty err Hne. rewrite Hlabels, Hpe by assumption.
      unfold inc. apply lookup_insert_ne. congruence.
    + destruct Hstep as ((event & Hqueue & _) & Hpp & Hpe).
      rewrite Hpp, total_inc in Hok. rewrite Hpe in Herr.
      rewrite Hqueue, length_app in Hq. simpl in Hq.
      split; [lia|]. split; [lia|]. split; [|lia].
      intros ty err Hne. now rewrite Hlabels, Hpe.
Qed.

End PipelineCounts.

(** * The Gate's connection table *)

Section GateFacts.
Import gate.



(** The session id a connection ends up bound to: the one it has, or else the
    first non-empty session id among the frames. *)
Lemma touch_session (conn : Connection.t) (packet : StreamPacket.t) (now : Z) :
  Connection.SessionID (touch conn packet now)
  = (if String.eqb (Connection.SessionID conn) ""
     then StreamPacket.SessionID packet
     else Connection.SessionID conn)
  ∧ Connection.ID (touch conn packet now) = Connection.ID conn
  ∧ Connection.APIKey (touch conn packet now) = Connection.APIKey conn
  ∧ Connection.LastSeen (touch conn packet now) = now.
Proof.
  unfold touch. simpl. repeat split.
  destruct (String.eqb_spec (StreamPacket.SessionID packet) "") as [->|];
    destruct (String.eqb_spec (Connection.SessionID conn) "") as [->|];
    reflexivity.
Qed.

(** X24: once a connection is bound to a session id, no later frame changes
    the binding, whatever session id the frame carries; the connection id and
    API key never change. *)
Theorem session_binding_sticks
    (conn : Connection.t) (frames : list (StreamPacket.t * Z)) :
  let conn' := foldl (fun c frame => touch c frame.1 frame.2) conn frames in
  (Connection.SessionID conn ≠ "" →
   Connection.SessionID conn' = Connection.SessionID conn)
  ∧ (Connection.SessionID conn = "" →
     Connection.SessionID conn'
     = default "" (head (filter (fun sid => sid ≠ "")
                                ((fun frame => StreamPacket.SessionID frame.1)
                                   <$> frames))))
  ∧ Connection.ID conn' = Connection.ID conn
  ∧ Connection.APIKey conn' = Connection.APIKey conn.
Proof.
  revert conn. induction frames as [|[packet now] frames IH]; intros conn.
  - simpl. repeat split. intros ->. reflexivity.
  - destruct (IH (touch conn packet now)) as (Hbound & Hfree & Hid & Hkey).
    destruct (touch_session conn packet now) as (Hs & Hi & Hk & _).
    cbn [foldl fst snd fmap list_fmap] in *.
    split; [|split; [|split; congruence]].
    + intros Hne. rewrite Hbound; rewrite Hs;
        destruct (String.eqb_spec (Connection.SessionID conn) ""); congruence.
    + intros Hempty. rewrite Hempty in Hs.
      change (String.eqb "" "") with true in Hs. cbv iota in Hs.
      rewrite filter_cons.
      destruct (decide (StreamPacket.SessionID packet ≠ "")) as [Hne|He].
      * change (default "" (head (?x :: ?l))) with x.
        rewrite Hbound; congruence.
      * apply dec_stable in He. rewrite Hfree; congruence.
Qed.

End GateFacts.

Section GateTable.
Import gate.


(** X26: [addConnection] registers the connection under its id, replacing
    whatever was registered under that id, so the count of active connections
    grows by one only for an id not yet in the table; a later
    [removeConnection] of that id leaves the table without the id, also
    without the connection that held it before. *)
Theorem addConnection_removeConnection
    (g : Gate) (addr : nat) (conn : Connection.t) :
  registered (addConnection g addr conn) (Connection.ID conn) = Some conn
  ∧ GetActiveConnections (addConnection g addr conn)
    = (match connections g !! Connection.ID conn with
       | Some _ => GetActiveConnections g
       | None => S (GetActiveConnections g)
       end)
  ∧ connections (removeConnection (addConnection g addr conn) (Connection.ID conn))
    = delete (Connection.ID conn) (connections g).
Proof.
  unfold registered, addConnection, removeConnection, GetActiveConnections. simpl.
  split; [|split].
  - rewrite lookup_insert_eq. simpl. apply lookup_insert_eq.
  - rewrite map_size_insert. destruct (connections g !! Connection.ID conn); reflexivity.
  - apply delete_insert_eq.
Qed.

(** X27: two connection ids are equal exactly when they were generated at the
    same nanosecond reading of the clock. *)
Theorem generateConnectionID_eq_iff (nowNano1 nowNano2 : Z) :
  generateConnectionID nowNano1 = generateConnectionID nowNano2
  ↔ nowNano1 = nowNano2.
Proof.
  unfold generateConnectionID. split; [|now intros ->].
  intros H. apply (inj (String.app "conn_")) in H. now apply (inj pretty) in H.
Qed.

End GateTable.

(** * Instances of the properties above *)

Section FurtherExamples.

Let vertices0 : list Z := [0; 1; 2; 3; 4; 5; 6; 7; 8; 9; 10; 11].
Let vertices1 : list Z := [0; 1; 2; 3; 4; 5; 6; 7; 8; 9; 10; 99].
Let mesh0 : MeshDiff.t := MeshDiff.mk "a1" vertices0 [0; 1; 2] false.
Let mesh1 : MeshDiff.t := MeshDiff.mk "a1" vertices1 [0; 1; 2] false.
Let short_mesh : MeshDiff.t := MeshDiff.mk "a1" [7; 7] [] false.
Let mesh_event (mesh : MeshDiff.t) : SpatialEvent.t :=
  SpatialEvent.mk "s1" "e1" 1700000000000 [] [mesh].
Let u_a1 : updater.Updater := updater.mkUpdater 5 [] {[ "a1" := vertices0 ]}.

Lemma applyMeshDiffing_frame_witness :
  updater.lastMeshes (snd (updater.applyMeshDiffing u_a1 (mesh_event mesh1))) !! "b2"
  = updater.lastMeshes u_a1 !! "b2"
  ∧ updater.eventQueue (snd (updater.applyMeshDiffing u_a1 (mesh_event mesh1)))
    = updater.eventQueue u_a1
  ∧ updater.batchSize (snd (updater.applyMeshDiffing u_a1 (mesh_event mesh1)))
    = updater.batchSize u_a1.
Proof.
  apply (applyMeshDiffing_frame u_a1 (mesh_event mesh1) "b2").
  constructor; [right; discriminate|constructor].
Defined.

Lemma applyMeshDiffing_first_or_resized_witness :
  SpatialEvent.Meshes (fst (updater.applyMeshDiffing u_a1 (mesh_event short_mesh)))
    !! 0%nat
  = Some short_mesh.
Proof.
  apply (applyMeshDiffing_first_or_resized u_a1 (mesh_event short_mesh)
           [] short_mesh []).
  - reflexivity.
  - constructor.
  - right. exists vertices0. split; [reflexivity|]. right. discriminate.
Defined.

Lemma applyMeshDiffing_decodable_witness :
  ∃ emitted,
    SpatialEvent.Meshes (fst (updater.applyMeshDiffing u_a1 (mesh_event mesh1)))
      !! 0%nat = Some emitted
    ∧ (emitted = mesh1
       ∨ (MeshDiff.IsDelta mesh1 = false
          ∧ MeshDiff.IsDelta emitted = true
          ∧ ∃ lastVertices,
              updater.lastMeshes u_a1 !! MeshDiff.AnchorID mesh1 = Some lastVertices
              ∧ length lastVertices = length (MeshDiff.VerticesDelta mesh1)
              ∧ xor_bytes lastVertices (MeshDiff.VerticesDelta emitted)
                = MeshDiff.VerticesDelta mesh1)).
Proof.
  apply (applyMeshDiffing_decodable u_a1 (mesh_event mesh1) [] mesh1 []).
  - reflexivity.
  - constructor.
Defined.

Lemma applyMeshDiffing_emits_unchanged_witness :
  fst (updater.applyMeshDiffing u_a1 (mesh_event mesh1)) = mesh_event mesh1.
Proof.
  apply (applyMeshDiffing_emits_unchanged u_a1 (mesh_event mesh1)).
  constructor; [|constructor].
  change (12 < checked_length)%nat. unfold checked_length. lia.
Defined.

Lemma createVertexDelta_bytes_witness :
  length (updater.createVertexDelta [1; 2; 255] [1; 7; 0]) = length [1; 7; 0]
  ∧ Forall is_byte (updater.createVertexDelta [1; 2; 255] [1; 7; 0]).
Proof.
  apply (createVertexDelta_bytes [1; 2; 255] [1; 7; 0]);
    repeat constructor; unfold is_byte; lia.
Defined.

Let uuid_n (n : nat) : string := "uuid-" +:+ pretty n.

Let uuid_n_inj : Inj (=) (=) uuid_n.
Proof.
  intros m n H. unfold uuid_n in H.
  apply (inj (String.app "uuid-")) in H. now apply (inj pretty) in H.
Defined.

Let raw_gunzip (data : list Z) : option (list Z) :=
  match data with
  | 31 :: 139 :: payload => Some payload
  | _ => None
  end.

Let pose1 : PoseData.t := PoseData.mk 1.5 2.5 3.5 (0, 0, 0, 1)%float.
Let pose_pkt (sessionID : string) : StreamPacket.t :=
  StreamPacket.mk sessionID 1 1700000000000 "pose"
    (PacketData.mk (Some pose1) None).
Let mesh_data : MeshData.t := MeshData.mk [1; 2; 3] [] "a1".
Let mesh_pkt : StreamPacket.t :=
  StreamPacket.mk "s1" 2 1700000000000 "mesh" (PacketData.mk None (Some mesh_data)).
Let s0 : transformer.state := transformer.mkState transformer.New 0.
Let packets3 : list StreamPacket.t := [pose_pkt "s1"; mesh_pkt; pose_pkt "s1"].

Lemma Transform_all_event_ids_distinct_witness : "uuid-0" ≠ "uuid-3".
Proof.
  apply (Transform_all_event_ids_distinct uuid_n uuid_n_inj packets3 s0
           (fst (transformer.Transform_all uuid_n packets3 s0))
           (snd (transformer.Transform_all uuid_n packets3 s0))
           0 2
           (SpatialEvent.mk "s1" "uuid-0" 1700000000000
              [Anchor.mk "anchor_uuid-1" pose1 1700000000000] [])
           (SpatialEvent.mk "s1" "uuid-3" 1700000000000
              [Anchor.mk "anchor_uuid-1" pose1 1700000000000] [])).
  - apply surjective_pairing.
  - vm_compute. reflexivity.
  - vm_compute. reflexivity.
  - discriminate.
Defined.

Lemma Transform_all_active_sessions_witness :
  dom (transformer.anchorMap
         (transformer.self (snd (transformer.Transform_all uuid_n packets3 s0))))
  = pose_sessions packets3
  ∧ active_sessions (snd (transformer.Transform_all uuid_n packets3 s0))
    = size (pose_sessions packets3).
Proof.
  apply (Transform_all_active_sessions uuid_n 0 packets3
           (fst (transformer.Transform_all uuid_n packets3 s0))).
  apply surjective_pairing.
Defined.

Lemma ClearStaleSession_then_pose_witness :
  let s := snd (transformer.Transform uuid_n (pose_pkt "s1") s0) in
  let s1 := snd (transformer.ClearStaleSession "s1" s) in
  transformer.anchorMap (transformer.self s1) !! "s1" = None
  ∧ (∀ other, other ≠ "s1" →
              transformer.anchorMap (transformer.self s1) !! other
              = transformer.anchorMap (transformer.self s) !! other)
  ∧ transformer.uuid_calls s1 = transformer.uuid_calls s
  ∧ ∃ anchorID event,
      fst (transformer.Transform uuid_n (pose_pkt "s1") s1) = Ok event
      ∧ SpatialEvent.Anchors event = [Anchor.mk anchorID pose1 1700000000000]
      ∧ ∀ sessionID old,
          transformer.anchorMap (transformer.self s) !! sessionID = Some old →
          anchorID ≠ old.
Proof.
  apply (ClearStaleSession_then_pose uuid_n uuid_n_inj
           (snd (transformer.Transform uuid_n (pose_pkt "s1") s0))
           (pose_pkt "s1") pose1).
  - apply (Transform_kept_fresh uuid_n (pose_pkt "s1") s0 _ _
             (surjective_pairing _)); [exact uuid_n_inj|].
    split; simpl; intros *; rewrite lookup_empty; discriminate.
  - split; reflexivity.
Defined.

Lemma Transform_mesh_witness :
  ∃ event s',
    transformer.Transform uuid_n mesh_pkt s0 = (Ok event, s')
    ∧ SpatialEvent.Anchors event = []
    ∧ SpatialEvent.Meshes event = [MeshDiff.mk "a1" [1; 2; 3] [] false]
    ∧ transformer.self s' = transformer.self s0
    ∧ transformer.uuid_calls s' = S (transformer.uuid_calls s0).
Proof.
  apply (Transform_mesh uuid_n mesh_pkt mesh_data s0); reflexivity.
Defined.

Lemma ParsePacket_pose_unchanged_witness : pose_pkt "s1" = pose_pkt "s1".
Proof.
  apply (ParsePacket_pose_unchanged raw_gunzip (pose_pkt "s1") (pose_pkt "s1"));
    [reflexivity|vm_compute; reflexivity].
Defined.

Lemma ParsePacket_mesh_fields_witness :
  ∃ mesh',
    PacketData.Mesh (StreamPacket.Data mesh_pkt) = Some mesh'
    ∧ PacketData.Pose (StreamPacket.Data mesh_pkt)
      = PacketData.Pose (StreamPacket.Data mesh_pkt)
    ∧ MeshData.AnchorID mesh' = MeshData.AnchorID mesh_data
    ∧ MeshData.AnchorID mesh' ≠ ""
    ∧ (MeshData.Faces mesh' = MeshData.Faces mesh_data
       ∨ raw_gunzip (MeshData.Faces mesh_data) = Some (MeshData.Faces mesh'))
    ∧ (MeshData.Faces mesh_data = [] → MeshData.Faces mesh' = [])
    ∧ (raw_gunzip (MeshData.Vertices mesh_data) = None →
       MeshData.Faces mesh_data = [] ∨ raw_gunzip (MeshData.Faces mesh_data) = None →
       mesh_pkt = mesh_pkt).
Proof.
  apply (ParsePacket_mesh_fields raw_gunzip mesh_pkt mesh_pkt mesh_data);
    reflexivity.
Defined.

Lemma accepted_packet_one_record_witness :
  ∃ event s',
    transformer.Transform uuid_n mesh_pkt s0 = (Ok event, s')
    ∧ ((StreamPacket.Type_ mesh_pkt = "pose"
        ∧ length (SpatialEvent.Anchors event) = 1%nat
        ∧ SpatialEvent.Meshes event = [])
       ∨ (StreamPacket.Type_ mesh_pkt = "mesh"
          ∧ SpatialEvent.Anchors event = []
          ∧ ∃ mesh, SpatialEvent.Meshes event = [mesh]
                    ∧ MeshDiff.IsDelta mesh = false
                    ∧ MeshDiff.AnchorID mesh ≠ "")).
Proof.
  apply (accepted_packet_one_record raw_gunzip uuid_n mesh_pkt mesh_pkt s0).
  reflexivity.
Defined.



End FurtherExamples.
